(** * Shallow embedding of the vkdemos single-file Vulkan examples

    The examples are linear sequences of Vulkan calls.  What is modelled
    here is the host-side logic that the examples share: the decoding of
    the two environment variables, SPIR-V loading, the PPM dump loop, the
    acquire/submit/present frame loop of the swapchain examples, and the
    two small shaders whose output the examples document (the subpass
    compose shader and the compute invert shader).  Further down: the
    queue family, device and memory type selection, shader module
    creation, the swapchain image count, the rotation of the subpass
    example's uniform colors, the compute example's source image and
    dispatch, and the helpers of the info query example. *)

From Stdlib Require Import List String Ascii ZArith Lia Bool Sorted Btauto.
From Stdlib Require QArith Qround.
Import ListNotations.
Open Scope string_scope.

(* ------------------------------------------------------------------ *)
(** ** Process configuration: [DEMO_USE_VALIDATION] and [DEMO_OUTPUT] *)

Module Config.

(** The process environment as seen through [getenv]: [None] is NULL. *)
Definition Env := string -> option string.

(** The C view of a value: characters up to the first NUL. *)
Fixpoint c_view (s : string) : string :=
  match s with
  | EmptyString => EmptyString
  | String c r => if Ascii.eqb c Ascii.zero then EmptyString else String c (c_view r)
  end.

(** The first character of a NUL-terminated string (NUL when empty). *)
Definition c_char (s : string) : ascii :=
  match s with EmptyString => Ascii.zero | String c _ => c end.

Definition c_tail (s : string) : string :=
  match s with EmptyString => EmptyString | String _ r => r end.

(** [strncmp] (C11 7.24.4.4): compares at most [n] characters as
    unsigned char, stopping after a NUL common to both strings. *)
Fixpoint strncmp (s1 s2 : string) (n : nat) : Z :=
  match n with
  | O => 0%Z
  | S n' =>
      let c1 := c_char s1 in
      let c2 := c_char s2 in
      if Ascii.eqb c1 c2 then
        if Ascii.eqb c1 Ascii.zero then 0%Z else strncmp (c_tail s1) (c_tail s2) n'
      else (Z.of_nat (nat_of_ascii c1) - Z.of_nat (nat_of_ascii c2))%Z
  end.

(** vktriangle.cpp 108-116 (identical in vktriangle_glfw.cpp 115-123,
    vktriangle_external_memory.cpp 984-992, the subpass example 183-191
    and the compute example 56-64):
<<
    const char *envValidation = getenv("DEMO_USE_VALIDATION");
    const char *envOutputName = getenv("DEMO_OUTPUT");
    bool enableValidationLayers = ((envValidation != NULL) && (strncmp("1", envValidation, 2) == 0));
    const char *outputFileName = "out.ppm";
    if (envOutputName != NULL) { outputFileName = envOutputName; }
>> *)
Definition enableValidationLayers (env : Env) : bool :=
  match env "DEMO_USE_VALIDATION" with
  | None => false
  | Some v => Z.eqb (strncmp "1" v 2) 0
  end.

Definition outputFileName (env : Env) : string :=
  match env "DEMO_OUTPUT" with
  | None => "out.ppm"
  | Some v => v
  end.

(** The examples that contain this decoding. *)
Inductive Example := vktriangle | vktriangle_glfw | vktriangle_external_memory
                   | vktriangle_subpass | vkcompute.

(** Every example's [main] starts with the same decoding. *)
Definition example_config (e : Example) (env : Env) : bool * string :=
  match e with
  | vktriangle | vktriangle_glfw | vktriangle_external_memory
  | vktriangle_subpass | vkcompute => (enableValidationLayers env, outputFileName env)
  end.

End Config.

(* ------------------------------------------------------------------ *)
(** ** SPIR-V loading ([LoadSPIRV], vktriangle.cpp 1034-1055) *)

Module Spirv.

(** A file system: [None] when the file cannot be opened. *)
Definition FS := string -> option (list Byte.byte).

(** A [uint32_t] of the result vector, as its four bytes in memory order. *)
Definition word := (Byte.byte * Byte.byte * Byte.byte * Byte.byte)%type.

Definition word_zero : word := (Byte.x00, Byte.x00, Byte.x00, Byte.x00).

Definition word_bytes (w : word) : list Byte.byte :=
  let '(b0, b1, b2, b3) := w in [b0; b1; b2; b3].

Definition words_bytes (ws : list word) : list Byte.byte :=
  flat_map word_bytes ws.

Inductive result := Ok (ws : list word) | Error (msg : string).

Definition is_error (r : result) : bool :=
  match r with Error _ => true | Ok _ => false end.

(** [std::vector<uint32_t> buffer(n)] value-initialises [n] words, then
    [file.read] fills them from the stream in order. *)
Fixpoint read_words (n : nat) (bs : list Byte.byte) : list word :=
  match n with
  | O => []
  | S n' =>
      match bs with
      | b0 :: b1 :: b2 :: b3 :: rest => (b0, b1, b2, b3) :: read_words n' rest
      | _ => word_zero :: read_words n' []
      end
  end.

Definition LoadSPIRV (fs : FS) (name : string) : result :=
  match fs name with
  | None => Error ("failed to open file: " ++ name)
  | Some contents =>
      let fileSize := List.length contents in
      if negb (Nat.eqb (fileSize mod 4) 0)
      then Error ("spirv file is not divisable by 4: " ++ name)
      else Ok (read_words (fileSize / 4) contents)
  end.

(** A four-byte sample module. *)
Definition spv_bytes : list Byte.byte := [Byte.x03; Byte.x02; Byte.x23; Byte.x07].

End Spirv.

(* ------------------------------------------------------------------ *)
(** ** The PPM dump (vktriangle.cpp 892-911 and its copies) *)

Module Ppm.

(** [operator<<] on an unsigned integer: its decimal digits. *)
Fixpoint string_of_uint (d : Decimal.uint) : string :=
  match d with
  | Decimal.Nil => ""
  | Decimal.D0 d => String "0" (string_of_uint d)
  | Decimal.D1 d => String "1" (string_of_uint d)
  | Decimal.D2 d => String "2" (string_of_uint d)
  | Decimal.D3 d => String "3" (string_of_uint d)
  | Decimal.D4 d => String "4" (string_of_uint d)
  | Decimal.D5 d => String "5" (string_of_uint d)
  | Decimal.D6 d => String "6" (string_of_uint d)
  | Decimal.D7 d => String "7" (string_of_uint d)
  | Decimal.D8 d => String "8" (string_of_uint d)
  | Decimal.D9 d => String "9" (string_of_uint d)
  end.

Definition dec (n : nat) : string := string_of_uint (Nat.to_uint n).

Definition nl : string := String (ascii_of_nat 10) EmptyString.

(** [file << "P6\n" << renderImageWidth << "\n" << renderImageHeight << "\n" << 255 << "\n";] *)
Definition header (w h : nat) : list Byte.byte :=
  list_byte_of_string ("P6" ++ nl ++ dec w ++ nl ++ dec h ++ nl ++ dec 255 ++ nl).

(** The mapped memory of the readable image, from [data] (already moved
    by [subResourceLayout.offset]) on, byte by byte. *)
Definition Mem := nat -> Byte.byte.

(** The inner loop: [file.write((const char* ) row, 3); row++;] with
    [row] a [uint32_t*], i.e. 3 bytes written, 4 bytes advanced. *)
Fixpoint write_row (data : Mem) (p : nat) (w : nat) : list Byte.byte :=
  match w with
  | O => []
  | S w' => [data p; data (p + 1); data (p + 2)] ++ write_row data (p + 4) w'
  end.

(** The outer loop: one row, then [data += subResourceLayout.rowPitch]. *)
Fixpoint write_rows (data : Mem) (p rowPitch w h : nat) : list Byte.byte :=
  match h with
  | O => []
  | S h' => write_row data p w ++ write_rows data (p + rowPitch) rowPitch w h'
  end.

(** The bytes of the output file. *)
Definition dump (data : Mem) (rowPitch w h : nat) : list Byte.byte :=
  header w h ++ write_rows data 0 rowPitch w h.

(** A texel of the rendered image, one byte per channel. *)
Record rgba := { r : Byte.byte; g : Byte.byte; b : Byte.byte; a : Byte.byte }.

(** The two 4-byte formats the dumped images have. *)
Inductive format := R8G8B8A8 | B8G8R8A8.

(** The memory bytes of a texel in a format. *)
Definition texel_bytes (f : format) (t : rgba) : list Byte.byte :=
  match f with
  | R8G8B8A8 => [t.(r); t.(g); t.(b); t.(a)]
  | B8G8R8A8 => [t.(b); t.(g); t.(r); t.(a)]
  end.

(** An image as a function of its coordinates [x] and [y]. *)
Definition Image := nat -> nat -> rgba.

(** [vkCmdCopyImage] into the linear [R8G8B8A8_UNORM] image copies
    texel blocks bit for bit, so the memory of the readable image holds
    the source's texel bytes at [y * rowPitch + 4 * x]; the row padding
    is left unconstrained. *)
Definition linear_layout (f : format) (img : Image) (rowPitch w h : nat) (data : Mem) : Prop :=
  forall x y k, x < w -> y < h -> k < 4 ->
    data (y * rowPitch + 4 * x + k) = nth k (texel_bytes f (img x y)) Byte.x00.

(** A memory that satisfies [linear_layout], padding bytes 0. *)
Definition layout_mem (f : format) (img : Image) (rowPitch w : nat) : Mem :=
  fun p =>
    let y := p / rowPitch in
    let q := p mod rowPitch in
    if Nat.ltb q (4 * w) then nth (q mod 4) (texel_bytes f (img (q / 4) y)) Byte.x00
    else Byte.x00.

(** The format of the image each example dumps to its output file.
    vktriangle renders into an [R8G8B8A8_UNORM] image (vktriangle.cpp
    299); the compute example dumps an [R8G8B8A8_UNORM] image; the
    swapchain examples dump [swapImages[0]], whose format is the
    [B8G8R8A8_SRGB] surface format they select when the surface offers
    it (vktriangle_glfw.cpp 332). *)
Definition dumped_format (e : Config.Example) : format :=
  match e with
  | Config.vktriangle | Config.vkcompute => R8G8B8A8
  | Config.vktriangle_glfw | Config.vktriangle_external_memory
  | Config.vktriangle_subpass => B8G8R8A8
  end.

(** The file the spec describes: header, then for each row and each
    column the R, G and B bytes of the texel. *)
Fixpoint rgb_row (img : Image) (y x w : nat) : list Byte.byte :=
  match w with
  | O => []
  | S w' => [(img x y).(r); (img x y).(g); (img x y).(b)] ++ rgb_row img y (S x) w'
  end.

Fixpoint rgb_rows (img : Image) (y w h : nat) : list Byte.byte :=
  match h with
  | O => []
  | S h' => rgb_row img y 0 w ++ rgb_rows img (S y) w h'
  end.

Definition spec_ppm (img : Image) (w h : nat) : list Byte.byte :=
  header w h ++ rgb_rows img 0 w h.

(** The file as the code writes it: the first three memory bytes of
    each texel, in the texel's format. *)
Fixpoint fmt_row (f : format) (img : Image) (y x w : nat) : list Byte.byte :=
  match w with
  | O => []
  | S w' => firstn 3 (texel_bytes f (img x y)) ++ fmt_row f img y (S x) w'
  end.

Fixpoint fmt_rows (f : format) (img : Image) (y w h : nat) : list Byte.byte :=
  match h with
  | O => []
  | S h' => fmt_row f img y 0 w ++ fmt_rows f img (S y) w h'
  end.

(** Swapping the red and blue channels of an image. *)
Definition swap_rb (img : Image) : Image :=
  fun x y => {| r := b (img x y); g := g (img x y); b := r (img x y); a := a (img x y) |}.

(** A uniformly opaque red image. *)
Definition red_image : Image :=
  fun _ _ => {| r := Byte.xff; g := Byte.x00; b := Byte.x00; a := Byte.xff |}.

End Ppm.

(* ------------------------------------------------------------------ *)
(** ** The draw and present loop (vktriangle_glfw.cpp 1023-1088)

    The same loop appears in vktriangle_external_memory.cpp 1606-1671
    and in the subpass example (which in addition updates a uniform
    buffer at the start of each iteration).  Handles are named by their
    index in the arrays of the source: [activeFences[i]],
    [imageAvailableSemaphores[i]], [renderFinishedSemaphores[i]] and
    [cmdBuffers[imageIndex]]. *)

Module FrameLoop.

Inductive VkResult :=
| VK_SUCCESS | VK_SUBOPTIMAL_KHR | VK_ERROR_OUT_OF_DATE_KHR
| VK_ERROR_DEVICE_LOST | VK_ERROR_OUT_OF_DEVICE_MEMORY.

Definition is_success (r : VkResult) : bool :=
  match r with VK_SUCCESS => true | _ => false end.

(** [const uint32_t imagesInFlight = 2;] *)
Definition imagesInFlight : nat := 2.

(** A fence handle: one of [activeFences]. *)
Definition fence := nat.

(** The native calls the loop issues, in the order it issues them. *)
Inductive call :=
| glfwPollEvents
| vkWaitForFences (f : fence)
| vkAcquireNextImageKHR (imageAvailable : nat)
| vkResetFences (f : fence)
| vkQueueSubmit (cmdBuffer : nat) (waitSem : nat) (signalSem : nat) (f : fence)
| vkQueuePresentKHR (imageIndex : nat) (waitSem : nat).

(** What the driver returns in one iteration: the acquired image index
    and the [VkResult] of every call. *)
Record frame_env := {
  acquired : nat;
  res_wait : VkResult;
  res_acquire : VkResult;
  res_guard : VkResult;
  res_reset : VkResult;
  res_submit : VkResult;
  res_present : VkResult
}.

(** The queue: submissions complete in order; [done] of them have
    completed.  [fence_seq f] is the number of submissions made up to
    and including the last one that signals [f] (0: none, the fence is
    created signaled).  A successful [vkWaitForFences] with timeout
    [UINT64_MAX] returns once that submission, and so every earlier one,
    has completed; this is the least progress the queue can have made. *)
Record state := {
  activeSyncIdx : nat;
  swapImagesFences : list (option fence);
  submitted : list nat;          (* the image index of each submission *)
  done : nat;
  fence_seq : fence -> nat;
  trace : list call
}.

Definition init (swapImageCount : nat) : state := {|
  activeSyncIdx := 0;
  swapImagesFences := repeat None swapImageCount;
  submitted := [];
  done := 0;
  fence_seq := fun _ => 0;
  trace := []
|}.

Definition emit (c : call) (s : state) : state :=
  {| activeSyncIdx := activeSyncIdx s; swapImagesFences := swapImagesFences s;
     submitted := submitted s; done := done s; fence_seq := fence_seq s;
     trace := trace s ++ [c] |}.

(** [vkWaitForFences(device, 1, &f, VK_TRUE, UINT64_MAX)], result ignored. *)
Definition wait_fence (f : fence) (res : VkResult) (s : state) : state :=
  let s := emit (vkWaitForFences f) s in
  if is_success res then
    {| activeSyncIdx := activeSyncIdx s; swapImagesFences := swapImagesFences s;
       submitted := submitted s; done := Nat.max (done s) (fence_seq s f);
       fence_seq := fence_seq s; trace := trace s |}
  else s.

Fixpoint set_nth {A} (l : list A) (n : nat) (v : A) : list A :=
  match l, n with
  | [], _ => []
  | _ :: t, O => v :: t
  | x :: t, S n' => x :: set_nth t n' v
  end.

Definition set_table (img : nat) (v : option fence) (s : state) : state :=
  {| activeSyncIdx := activeSyncIdx s; swapImagesFences := set_nth (swapImagesFences s) img v;
     submitted := submitted s; done := done s; fence_seq := fence_seq s; trace := trace s |}.

(** G.25.0 - G.25.3 and [vkResetFences]: everything up to the submit. *)
Definition pre_submit (e : frame_env) (s : state) : state :=
  let i := activeSyncIdx s in
  let s := emit glfwPollEvents s in
  let s := wait_fence i (res_wait e) s in
  let s := emit (vkAcquireNextImageKHR i) s in
  let imageIndex := acquired e in
  let s := match nth_error (swapImagesFences s) imageIndex with
           | Some (Some f) => wait_fence f (res_guard e) s
           | _ => s
           end in
  let s := set_table imageIndex (Some i) s in
  emit (vkResetFences i) s.

(** [if (vkQueueSubmit(...) != VK_SUCCESS) throw ...;], the present and
    the advance of [activeSyncIdx]. *)
Definition post_submit (e : frame_env) (s : state) : string + state :=
  let i := activeSyncIdx s in
  let imageIndex := acquired e in
  let s := emit (vkQueueSubmit imageIndex i i i) s in
  if negb (is_success (res_submit e)) then inl "failed to submit command buffer!"
  else
    let n := S (List.length (submitted s)) in
    let s := {| activeSyncIdx := activeSyncIdx s; swapImagesFences := swapImagesFences s;
                submitted := submitted s ++ [imageIndex]; done := done s;
                fence_seq := fun f => if Nat.eqb f i then n else fence_seq s f;
                trace := trace s |} in
    let s := emit (vkQueuePresentKHR imageIndex i) s in
    inr {| activeSyncIdx := (i + 1) mod imagesInFlight; swapImagesFences := swapImagesFences s;
           submitted := submitted s; done := done s; fence_seq := fence_seq s;
           trace := trace s |}.

Definition iteration (e : frame_env) (s : state) : string + state :=
  post_submit e (pre_submit e s).

(** [while (!glfwWindowShouldClose(window)) { ... }]: one [frame_env]
    per iteration before the window is closed. *)
Fixpoint run (es : list frame_env) (s : state) : string + state :=
  match es with
  | [] => inr s
  | e :: es' =>
      match iteration e s with
      | inl msg => inl msg
      | inr s' => run es' s'
      end
  end.

Definition is_abort (r : string + state) : bool :=
  match r with inl _ => true | inr _ => false end.

(** The state a run reaches, or [d] when it aborted. *)
Definition state_or (r : string + state) (d : state) : state :=
  match r with inl _ => d | inr s => s end.

(** A [VkResult] that is an error code (negative in [vulkan_core.h]). *)
Definition is_error_code (r : VkResult) : bool :=
  match r with VK_SUCCESS | VK_SUBOPTIMAL_KHR => false | _ => true end.

Definition has_error_result (e : frame_env) : bool :=
  existsb is_error_code [res_wait e; res_acquire e; res_guard e; res_reset e;
                         res_submit e; res_present e].

(** An iteration in which every call succeeds. *)
Definition frame_ok (img : nat) : frame_env :=
  {| acquired := img; res_wait := VK_SUCCESS; res_acquire := VK_SUCCESS;
     res_guard := VK_SUCCESS; res_reset := VK_SUCCESS; res_submit := VK_SUCCESS;
     res_present := VK_SUCCESS |}.

(** An iteration whose present reports an out-of-date swapchain and
    whose first fence wait fails. *)
Definition frame_present_out_of_date (img : nat) : frame_env :=
  {| acquired := img; res_wait := VK_ERROR_OUT_OF_DEVICE_MEMORY; res_acquire := VK_SUCCESS;
     res_guard := VK_SUCCESS; res_reset := VK_SUCCESS; res_submit := VK_SUCCESS;
     res_present := VK_ERROR_OUT_OF_DATE_KHR |}.

(** An iteration whose wait on the image's previous fence (the guard)
    fails with [VK_ERROR_DEVICE_LOST]. *)
Definition frame_guard_fails (img : nat) : frame_env :=
  {| acquired := img; res_wait := VK_SUCCESS; res_acquire := VK_SUCCESS;
     res_guard := VK_ERROR_DEVICE_LOST; res_reset := VK_SUCCESS; res_submit := VK_SUCCESS;
     res_present := VK_SUCCESS |}.

(** The guard part of an iteration's trace. *)
Definition guard_calls (table : list (option fence)) (img : nat) : list call :=
  match nth_error table img with
  | Some (Some f) => [vkWaitForFences f]
  | _ => []
  end.

(** Every submission of an image either has completed or is covered by
    the fence the per-image table holds for that image. *)
Definition Inv (n : nat) (s : state) : Prop :=
  List.length (swapImagesFences s) = n /\
  (forall f, fence_seq s f <= List.length (submitted s)) /\
  (forall img k, nth_error (submitted s) k = Some img ->
     k < done s \/
     exists f, nth_error (swapImagesFences s) img = Some (Some f) /\ k < fence_seq s f).

(** The environment the guard relies on: the acquired index is one of
    the [n] swapchain images and the guard's fence wait succeeds. *)
Definition ok_env (n : nat) (e : frame_env) : Prop :=
  acquired e < n /\ res_guard e = VK_SUCCESS.

End FrameLoop.

(* ------------------------------------------------------------------ *)
(** ** Shaders

    GLSL [float]s are modelled as rationals: the shaders below only
    compare, add and multiply values of an 8-bit UNORM attachment with
    small constants. *)

Module Glsl.
Import QArith Qround.

Record vec4 := mkvec4 { x : Q; y : Q; z : Q; w : Q }.

Definition vec4_eq (u v : vec4) : Prop :=
  x u == x v /\ y u == y v /\ z u == z v /\ w u == w v.

(** [mod(a, b) = a - b * floor(a / b)] (GLSL 4.50, 8.3). *)
Definition glsl_mod (a b : Q) : Q := a - b * inject_Z (Qfloor (a / b)).

(** [int(bool)] *)
Definition int_of_bool (c : bool) : Q := if c then 1 else 0.

Definition Qltb (a b : Q) : bool := negb (Qle_bool b a).

End Glsl.

(** *** The subpass example: colorizer (subpass 0 and 1) and compose (subpass 2) *)

Module Subpass.
Import QArith Qround Glsl.

(** [VkClearValue clearColor = { { { 0.0f, 0.0f, 0.0f, 1.0f } } };] for
    all four attachments, each created with [VK_ATTACHMENT_LOAD_OP_CLEAR]. *)
Definition clearColor : vec4 := mkvec4 0 0 0 1.

(** [std::vector<float> vertexCoordinates], read as [vec2]s. *)
Definition vertexCoordinates : list (Q * Q) :=
  [(0, -(1 # 2)); (1 # 2, 1 # 2); (-(1 # 2), 1 # 2)]%Q.

(** passthrough.vert: [gl_Position = vec4(inPosition, 0.0, 1.0);]. *)
Definition vertex_position (inPosition : Q * Q) : Q * Q * Q * Q :=
  (fst inPosition, snd inPosition, 0, 1).

(** [vkCmdDraw(cmdBuffer, vertexCount, instanceCount, firstVertex, firstInstance)] *)
Record draw := mkdraw {
  vertexCount : nat; instanceCount : nat; firstVertex : nat; firstInstance : nat }.

(** Subpass 0: "Draw the red triangle", "Draw the green triangle". *)
Definition subpass0_draws : list draw := [mkdraw 3 1 0 0; mkdraw 3 1 0 1].

(** Subpass 1: "Draw the blue triangle". *)
Definition subpass1_draws : list draw := [mkdraw 3 1 0 2].

(** The three draws of the colorizer pipelines, in recording order. *)
Definition colorizer_draws : list draw := app subpass0_draws subpass1_draws.

(** [pColorAttachments] per fragment output location: the attachment
    index, [None] for [VK_ATTACHMENT_UNUSED]. *)
Definition subpass0Colors : list (option nat) := [None; Some 1%nat; Some 2%nat].
Definition subpass1Colors : list (option nat) := [None; None; None; Some 3%nat].

(** subpass_0_colorizer.frag: the value [main] writes to the output at
    [location] (1: [colorRed], 2: [colorGreen], 3: [colorBlue]) for the
    flat input [instanceId]; [None] when the [switch] does not write it. *)
Definition colorizer (instanceId : Z) (fragColor : Q * Q * Q) (location : nat) : option vec4 :=
  let '(fr, fg, fb) := fragColor in
  match instanceId, location with
  | 0%Z, 1%nat => Some (mkvec4 fr 0 0 1)
  | 1%Z, 2%nat => Some (mkvec4 0 fg 0 1)
  | 2%Z, 3%nat => Some (mkvec4 0 0 fb 1)
  | _, _ => None
  end.

(** One fragment's color outputs stored into the attachments ([atts]
    maps an attachment index to its value at the pixel): blending is off
    and the write mask is RGBA, so every location whose reference names
    an attachment stores the output there; an output [main] leaves
    unwritten stores an undefined value, [undef location]. *)
Fixpoint write_outputs (colorRefs : list (option nat)) (location : nat)
    (out : nat -> option vec4) (undef : nat -> vec4) (atts : nat -> vec4) : nat -> vec4 :=
  match colorRefs with
  | [] => atts
  | None :: refs => write_outputs refs (S location) out undef atts
  | Some a :: refs =>
      write_outputs refs (S location) out undef
        (fun b => if Nat.eqb b a
                  then match out location with Some v => v | None => undef location end
                  else atts b)
  end.

Section Pixel.

(** [raster vs]: whether the triangle with clip-space vertices [vs]
    covers the pixel. *)
Variable raster : list (Q * Q * Q * Q) -> bool.

(** The value the colorizer's flat input [instanceId] receives in the
    draw with the given [firstInstance]; the vertex shader (part_004)
    declares no output at location 1, so it is left as an input here. *)
Variable instanceId : nat -> Z.

(** [fragColor] at the pixel: interpolated from [colors[gl_VertexIndex]]
    of the same three vertices and the same uniform buffer in every draw. *)
Variable fragColor : Q * Q * Q.

(** The undefined value stored for an unwritten output, per draw
    ([firstInstance]) and location. *)
Variable undef : nat -> nat -> vec4.

(** The clip-space vertices of a draw, with [vertexBuffer] bound at offset 0. *)
Definition draw_vertices (d : draw) : list (Q * Q * Q * Q) :=
  map vertex_position (firstn (vertexCount d) (skipn (firstVertex d) vertexCoordinates)).

Definition covers (d : draw) : bool := raster (draw_vertices d).

Definition run_draw (colorRefs : list (option nat)) (atts : nat -> vec4) (d : draw) : nat -> vec4 :=
  if covers d
  then write_outputs colorRefs 0 (colorizer (instanceId (firstInstance d)) fragColor)
         (undef (firstInstance d)) atts
  else atts.

Definition run_subpass (colorRefs : list (option nat)) (draws : list draw) (atts : nat -> vec4) :
    nat -> vec4 :=
  fold_left (run_draw colorRefs) draws atts.

(** The attachments at the pixel after subpasses 0 and 1. *)
Definition attachments : nat -> vec4 :=
  run_subpass subpass1Colors subpass1_draws
    (run_subpass subpass0Colors subpass0_draws (fun _ => clearColor)).

End Pixel.

(** subpass_2_compose.frag [main]: [fx], [fy] are [gl_FragCoord.xy]. *)
Definition compose (samplerRed samplerGreen samplerBlue : vec4) (fx fy : Q) : vec4 :=
  let target := 1 # 100 in
  let colorRed := x samplerRed in
  let colorGreen := y samplerGreen in
  let colorBlue := z samplerBlue in
  if Qltb colorRed target || Qltb colorGreen target || Qltb colorBlue target then
    let k := int_of_bool (Qltb (glsl_mod fx 40) 20) * int_of_bool (Qltb (glsl_mod fy 40) 20) in
    mkvec4 ((1 # 10) * k) ((1 # 10) * k) ((1 # 10) * k) 1
  else mkvec4 colorRed colorGreen colorBlue 1.

(** The composed output at a pixel: the input attachments 1, 2 and 3 are
    [samplerRed], [samplerGreen] and [samplerBlue]. *)
Definition composed raster instanceId fragColor undef (fx fy : Q) : vec4 :=
  let atts := attachments raster instanceId fragColor undef in
  compose (atts 1%nat) (atts 2%nat) (atts 3%nat) fx fy.

(** The checkerboard of the documentation: gray 0.1 where both
    coordinates fall in the first half of a 40-pixel period. *)
Definition checkerboard (fx fy : Q) : vec4 :=
  if Qltb (glsl_mod fx 40) 20 && Qltb (glsl_mod fy 40) 20
  then mkvec4 (1 # 10) (1 # 10) (1 # 10) 1
  else mkvec4 0 0 0 1.

(** Channel [k] (0: r, 1: g, 2: b, 3: a). *)
Definition channel (v : vec4) (k : nat) : Q :=
  match k with 0%nat => x v | 1%nat => y v | 2%nat => z v | _ => w v end.

End Subpass.

(** *** The compute example (compute.comp, dispatched 256/16 x 256/16 with
    a 16 x 16 local size on 256 x 256 images) *)

Module Invert.
Import QArith Glsl.

(** [ivec2(gl_GlobalInvocationID.xy)]: the [uint] to [int] conversion. *)
Definition int_of_uint (u : nat) : Z :=
  let v := (Z.of_nat u mod 2 ^ 32)%Z in
  if (v <? 2 ^ 31)%Z then v else (v - 2 ^ 32)%Z.

(** An [imageStore(u_output_image, coord, value)]. *)
Record store := { coord : Z * Z; value : vec4 }.

(** One invocation: [size] is [imageSize(u_input_image)] and [load] is
    [imageLoad(u_input_image, _)]; the result is the store it performs. *)
Definition invocation (load : Z * Z -> vec4) (size : Z * Z) (gid : nat * nat) : option store :=
  let pixel_coord := (int_of_uint (fst gid), int_of_uint (snd gid)) in
  if ((fst pixel_coord <? fst size) && (snd pixel_coord <? snd size))%Z then
    let pixel := load pixel_coord in
    Some {| coord := pixel_coord;
            value := mkvec4 (1 - x pixel) (1 - y pixel) (1 - z pixel) 1 |}
  else None.

(** The invocation IDs of [vkCmdDispatch(cmdBuffer, 256 / 16, 256/16, 1)]. *)
Definition dispatched (gid : nat * nat) : Prop := (fst gid < 256 /\ snd gid < 256)%nat.

End Invert.

(* ------------------------------------------------------------------ *)
(** ** Device, queue family and memory type selection

    [FindQueueFamily] exists in two variants: the headless one of
    vktriangle.cpp (968-993) and of the compute example, and the one of
    the surface examples (vktriangle_glfw.cpp 1213-1246), which also
    asks for presentation support.  A queue family is given by the
    fields the code reads. *)

Module Devices.
Local Open Scope Z_scope.

Definition UINT32_MAX : Z := 4294967295.

Definition VK_QUEUE_GRAPHICS_BIT : Z := 1.

(** [queueFamily.queueFlags & VK_QUEUE_GRAPHICS_BIT] *)
Definition has_graphics (queueFlags : Z) : bool :=
  negb (Z.eqb (Z.land queueFlags VK_QUEUE_GRAPHICS_BIT) 0).

Module Headless.

(** The range-for loop from [queueFamilyIdx] on; the result is the
    returned index and the final [*hasIdx] (set to [false] on entry). *)
Fixpoint find_from (queueFamilies : list Z) (queueFamilyIdx : nat) : Z * bool :=
  match queueFamilies with
  | [] => (UINT32_MAX, false)
  | queueFlags :: rest =>
      if has_graphics queueFlags then (Z.of_nat queueFamilyIdx, true)
      else find_from rest (S queueFamilyIdx)
  end.

Definition FindQueueFamily (queueFamilies : list Z) : Z * bool :=
  find_from queueFamilies 0.

End Headless.

(** A queue family of the surface examples: its [queueFlags] and the
    [presentSupport] that [vkGetPhysicalDeviceSurfaceSupportKHR] reports
    for its index and the window surface. *)
Record queue_family := { queueFlags : Z; presentSupport : bool }.

(** A family the surface examples accept at once: graphics bit and
    presentation support. *)
Definition graphics_present (q : queue_family) : bool :=
  has_graphics (queueFlags q) && presentSupport q.

Module WithSurface.

(** [hasIdx] is the current value of [*hasIdx]: it is set as soon as a
    graphics family is seen, before presentation support is checked. *)
Fixpoint find_from (queueFamilies : list queue_family) (queueFamilyIdx : nat) (hasIdx : bool)
  : Z * bool :=
  match queueFamilies with
  | [] => (UINT32_MAX, hasIdx)
  | q :: rest =>
      if has_graphics (queueFlags q) then
        if presentSupport q then (Z.of_nat queueFamilyIdx, true)
        else find_from rest (S queueFamilyIdx) true
      else find_from rest (S queueFamilyIdx) hasIdx
  end.

Definition FindQueueFamily (queueFamilies : list queue_family) : Z * bool :=
  find_from queueFamilies 0 false.

End WithSurface.

(** Step 2.3 of [main] (vktriangle_glfw.cpp 232-239):
    [for (device : devices) { graphicsQueueFamilyIdx = FindQueueFamily(device, surface, &hasIdx);
    if (hasIdx) { physicalDevice = device; break; } }].
    The result is the final [physicalDevice] and
    [graphicsQueueFamilyIdx]; [None] where the loop never assigns the
    variable (both are declared without an initialiser). *)
Fixpoint select_device {D} (FindQueueFamily : D -> Z * bool) (devices : list D)
  (graphicsQueueFamilyIdx : option Z) : option D * option Z :=
  match devices with
  | [] => (None, graphicsQueueFamilyIdx)
  | device :: rest =>
      let '(idx, hasIdx) := FindQueueFamily device in
      if hasIdx then (Some device, Some idx)
      else select_device FindQueueFamily rest (Some idx)
  end.

(** [FindMemoryType] (vktriangle.cpp 996-1009): the loop over the
    [memoryTypeCount] first entries of [memProperties.memoryTypes],
    given by their [propertyFlags].  [1 << i] is an [int]; for [i = 31]
    it is [INT_MIN], which [&] converts back to the unsigned [2^31]
    (a device has at most [VK_MAX_MEMORY_TYPES = 32] memory types). *)
Fixpoint find_memory_type (memoryTypes : list Z) (i : nat) (typeFilter properties : Z) : option Z :=
  match memoryTypes with
  | [] => None
  | propertyFlags :: rest =>
      if negb (Z.eqb (Z.land typeFilter (Z.shiftl 1 (Z.of_nat i))) 0)
         && Z.eqb (Z.land propertyFlags properties) properties
      then Some (Z.of_nat i)
      else find_memory_type rest (S i) typeFilter properties
  end.

Definition FindMemoryType (memoryTypes : list Z) (typeFilter properties : Z) : string + Z :=
  match find_memory_type memoryTypes 0 typeFilter properties with
  | Some i => inr i
  | None => inl "failed to find suitable memory type!"
  end.

(** The swapchain request of step G.5 (vktriangle_glfw.cpp 311-350):
    the fields of [VkSurfaceCapabilitiesKHR] the code reads. *)
Record surface_caps := {
  minImageCount : Z;
  maxImageCount : Z;
  currentExtent : Z * Z
}.

(** [uint32_t imageCount = surfaceCapabilities.minImageCount + 1;] *)
Definition imageCount (caps : surface_caps) : Z :=
  (minImageCount caps + 1) mod 2 ^ 32.

End Devices.

(* ------------------------------------------------------------------ *)
(** ** Shader module creation ([BuildShader], subpass example 2146-2176) *)

Module Shader.
Import Spirv FrameLoop.

(** The [VkShaderModuleCreateInfo] fields that carry the code. *)
Record create_info := { codeSize : nat; pCode : list word }.

(** [BuildShader] without shaderc: load [filename + ".spv"], refuse an
    empty module, then [vkCreateShaderModule], whose result is [res]. *)
Definition BuildShader (fs : FS) (filename : string) (res : VkResult) : string + create_info :=
  match LoadSPIRV fs (filename ++ ".spv") with
  | Error msg => inl msg
  | Ok code =>
      if Nat.eqb (List.length code) 0 then inl "failed to load shader!"
      else
        let info := {| codeSize := List.length code * 4; pCode := code |} in
        if negb (is_success res) then inl "failed to create shader module!"
        else inr info
  end.

End Shader.

(* ------------------------------------------------------------------ *)
(** ** The subpass example's uniform colors (subpass example 843-847 and
    1229-1234) *)

Module SubpassUniform.
Import QArith Glsl.
Local Open Scope Q_scope.

(** [std::vector<float> uniformData]: three RGBA colors. *)
Definition uniformData : list Q :=
  [1; 0; 0; 1;
   0; 1; 0; 1;
   0; 0; 1; 1].

(** [std::rotate(uniformData.begin(), uniformData.begin() + 4, uniformData.end());] *)
Definition rotate4 (l : list Q) : list Q := app (skipn 4 l) (firstn 4 l).

(** The buffer after [k] iterations of the draw loop. *)
Definition uniform_after (k : nat) : list Q := Nat.iter k rotate4 uniformData.

(** [colors[i]] of the shaders' [myUniformBuffer { vec4 colors[3]; }]
    over the bytes [memcpy] copies from the vector. *)
Definition colors (l : list Q) (i : nat) : vec4 :=
  mkvec4 (nth (4 * i)%nat l 0) (nth (4 * i + 1)%nat l 0) (nth (4 * i + 2)%nat l 0)
         (nth (4 * i + 3)%nat l 0).

End SubpassUniform.

(* ------------------------------------------------------------------ *)
(** ** The compute example's input image and dispatch *)

Module ComputeSource.
Import Ppm.
Local Open Scope Z_scope.

(** A [uint8_t] stored to memory. *)
Definition byte_of_Z (z : Z) : Byte.byte :=
  match Byte.of_N (Z.to_N (z mod 256)) with Some b => b | None => Byte.x00 end.

(** [red = (((x & 0x8) == 0) ^ ((y & 0x8) == 0)) * 255;] *)
Definition red (x y : Z) : Z :=
  ((if xorb (Z.eqb (Z.land x 8) 0) (Z.eqb (Z.land y 8) 0) then 1 else 0) * 255) mod 256.

(** [red | (x << 8u) | (y << 16u) | (alpha << 24u)] with [alpha = 255],
    stored as a [uint32_t]. *)
Definition pixel (x y : Z) : Z :=
  Z.lor (Z.lor (Z.lor (red x y) (Z.shiftl x 8)) (Z.shiftl y 16)) (Z.shiftl 255 24) mod 2 ^ 32.

(** [dataPtr[i] = v] on a little-endian host. *)
Definition store32 (m : Mem) (i : nat) (v : Z) : Mem :=
  fun p => if Nat.eqb (p / 4) i then byte_of_Z (Z.shiftr v (8 * Z.of_nat (p mod 4))) else m p.

(** [for (int y = 0; y < 256; y++) dataPtr[x * 256 + y] = ...;] from [y] on. *)
Fixpoint fill_y (m : Mem) (x y n : nat) : Mem :=
  match n with
  | O => m
  | S n' => fill_y (store32 m (x * 256 + y) (pixel (Z.of_nat x) (Z.of_nat y))) x (S y) n'
  end.

(** [for (int x = 0; x < 256; x++) { ... }] from [x] on. *)
Fixpoint fill_x (m : Mem) (x n : nat) : Mem :=
  match n with
  | O => m
  | S n' => fill_x (fill_y m x 0 256) (S x) n'
  end.

(** The mapped memory of [sourceImage] after the fill loop. *)
Definition fill (m : Mem) : Mem := fill_x m 0 256.

(** The byte the fill loop leaves at memory offset [p]: byte [p mod 4]
    of the pixel of word [p / 4], whose loop indices are
    [x = p / 4 / 256] and [y = p / 4 mod 256]. *)
Definition pix_byte (p : nat) : Byte.byte :=
  byte_of_Z (Z.shiftr (pixel (Z.of_nat (p / 4 / 256)) (Z.of_nat (p / 4 mod 256)))
                      (8 * Z.of_nat (p mod 4))).

(** The image the fill describes, indexed like [Ppm.Image] by column
    and row: the row is the fill loop's [x], the column its [y]. *)
Definition source_image : Image :=
  fun col row =>
    {| r := byte_of_Z (red (Z.of_nat row) (Z.of_nat col));
       g := byte_of_Z (Z.of_nat row);
       b := byte_of_Z (Z.of_nat col);
       a := Byte.xff |}.

(** [gl_GlobalInvocationID] of the invocation with work group [wg] and
    local invocation [l], per axis: [gl_WorkGroupID * gl_WorkGroupSize
    + gl_LocalInvocationID] with [local_size_x = local_size_y = 16]. *)
Definition global_id (wg l : nat) : nat := (wg * 16 + l)%nat.

(** The dispatch [vkCmdDispatch(cmdBuffer, 256 / 16, 256/16, 1)]: the
    work groups and local invocations of one axis. *)
Definition in_dispatch (wg l : nat) : Prop := (wg < 256 / 16 /\ l < 16)%nat.

End ComputeSource.

(* ------------------------------------------------------------------ *)
(** ** The Vulkan info query example (vkmininfo, in the compute
    example's source) *)

Module MinInfo.
Import FrameLoop.
Local Open Scope Z_scope.

(** [QueryWithMethod]: [queryWith None] is the call with a [nullptr]
    array, [queryWith (Some n)] the call with an array of [n] elements;
    each returns its [VkResult], the count it reports and the elements
    it writes.  [std::vector<PROPS> result(count)] value-initialises
    its elements ([zero]); the second call overwrites a prefix. *)
Fixpoint overwrite {P} (v : list P) (items : list P) : list P :=
  match v, items with
  | x :: v', i :: items' => i :: overwrite v' items'
  | _, _ => v
  end.

Definition QueryWithMethod {P} (zero : P)
  (queryWith : option nat -> VkResult * nat * list P) : list P :=
  let '(res1, count, _) := queryWith None in
  if negb (is_success res1) then []
  else
    let '(res2, _, items) := queryWith (Some count) in
    if negb (is_success res2) then []
    else overwrite (repeat zero count) items.

(** [strnlen(s, n)] over a NUL-terminated [char] array. *)
Fixpoint strnlen (s : string) (n : nat) : nat :=
  match n, s with
  | O, _ => O
  | _, EmptyString => O
  | S n', String c s' => if Ascii.eqb c Ascii.zero then O else S (strnlen s' n')
  end.

(** [std::accumulate(exts.begin(), exts.end(), 10u, [](value, ext)
    { return std::max(value, (uint32_t)strnlen(ext.extensionName, 256)); })],
    the same in [DumpLayers] over [layerName]. *)
Definition maxWidth (names : list string) : nat :=
  fold_left (fun value name => Nat.max value (strnlen name 256)) names 10%nat.

(** The [int] that [printf] reads for a [uint32_t] argument of [%*s]. *)
Definition int_arg (u : Z) : Z :=
  let v := u mod 2 ^ 32 in if v <? 2 ^ 31 then v else v - 2 ^ 32.

(** [-maxWidth - 2] and [maxWidth -10], computed on [uint32_t]. *)
Definition name_field (maxWidth : nat) : Z := int_arg (- Z.of_nat maxWidth - 2).

Definition description_field (maxWidth : nat) : Z := int_arg (Z.of_nat maxWidth - 10).

(** [VK_MAKE_API_VERSION] as the example defines it when the header
    does not. *)
Definition u32 (v : Z) : Z := v mod 2 ^ 32.

Definition VK_MAKE_API_VERSION (variant major minor patch : Z) : Z :=
  Z.lor (Z.lor (Z.lor (u32 (Z.shiftl (u32 variant) 29)) (u32 (Z.shiftl (u32 major) 22)))
               (u32 (Z.shiftl (u32 minor) 12)))
        (u32 patch).

(** [struct VersionInfo { uint8_t variant; uint8_t major; uint16_t minor; uint16_t patch; };] *)
Record VersionInfo := { variant : Z; major : Z; minor : Z; patch : Z }.

(** [GetVersionInfo], with the [VK_API_VERSION_*] macros of the example
    and the narrowing to the fields' types. *)
Definition GetVersionInfo (encodedVersion : Z) : VersionInfo :=
  let v := u32 encodedVersion in
  {| variant := Z.shiftr v 29 mod 2 ^ 8;
     major := Z.land (Z.shiftr v 22) 127 mod 2 ^ 8;
     minor := Z.land (Z.shiftr v 12) 1023 mod 2 ^ 16;
     patch := Z.land v 4095 mod 2 ^ 16 |}.

(** The flag lines of [DumpPhysicalDeviceInfos]:
    [for (shift = 0; shift < 32; shift++) { flag = flags & (1U << shift); if (flag) print(flag); }],
    from [shift] on for [n] iterations. *)
Fixpoint flag_lines (flags : Z) (shift n : nat) : list Z :=
  match n with
  | O => []
  | S n' =>
      let flag := Z.land flags (Z.shiftl 1 (Z.of_nat shift)) in
      (if negb (Z.eqb flag 0) then [flag] else []) ++ flag_lines flags (S shift) n'
  end.

Definition listed_flags (flags : Z) : list Z := flag_lines flags 0 32.

End MinInfo.

(* ================================================================== *)
(** * Properties *)

Module ConfigFacts.
Import Config.

Lemma ascii_eqb_refl' (c : ascii) : Ascii.eqb c c = true.
Proof. destruct (Ascii.eqb_spec c c); congruence. Qed.

Lemma nat_of_ascii_inj (c d : ascii) : nat_of_ascii c = nat_of_ascii d -> c = d.
Proof.
  intro H. rewrite <- (ascii_nat_embedding c), <- (ascii_nat_embedding d), H.
  reflexivity.
Qed.

Lemma nat_of_ascii_nonzero (c : ascii) : c <> Ascii.zero -> nat_of_ascii c <> 0.
Proof.
  intros Hc H. apply Hc, nat_of_ascii_inj. rewrite H. reflexivity.
Qed.

(** [strncmp("1", v, 2) == 0] holds exactly when the C string [v] is "1". *)
Lemma strncmp_one (v : string) :
  Z.eqb (strncmp "1" v 2) 0 = true <-> c_view v = "1".
Proof.
  assert (Z0 : nat_of_ascii Ascii.zero = 0) by reflexivity.
  destruct v as [|c r].
  - split; discriminate.
  - cbn -[Ascii.eqb nat_of_ascii].
    destruct (Ascii.eqb_spec "1" c) as [<-|Hc].
    + assert (E1 : Ascii.eqb "1" Ascii.zero = false) by reflexivity.
      rewrite E1.
      destruct r as [|d r']; cbn -[Ascii.eqb nat_of_ascii].
      * split; reflexivity.
      * destruct (Ascii.eqb_spec Ascii.zero d) as [<-|Hd].
        -- split; reflexivity.
        -- assert (Hd' : Ascii.eqb d Ascii.zero = false)
             by (destruct (Ascii.eqb_spec d Ascii.zero); congruence).
           rewrite Hd', Z0. split; [|discriminate].
           intro H. apply Z.eqb_eq in H.
           pose proof (nat_of_ascii_nonzero d (fun E => Hd (eq_sym E))). lia.
    + split.
      * intro H. apply Z.eqb_eq in H. exfalso. apply Hc, nat_of_ascii_inj. lia.
      * destruct (Ascii.eqb_spec c Ascii.zero) as [->|Hz]; [discriminate|].
        intro H. injection H as H1 _. congruence.
Qed.

(** C7: validation is on exactly when [DEMO_USE_VALIDATION] is set to
    the string "1"; the output file is [DEMO_OUTPUT] when set and
    "out.ppm" otherwise; every example decodes the environment this way. *)
Theorem env_config_decoding (e : Example) (env : Env) :
  example_config e env = (enableValidationLayers env, outputFileName env) /\
  (enableValidationLayers env = true <->
     exists v, env "DEMO_USE_VALIDATION" = Some v /\ c_view v = "1") /\
  outputFileName env = match env "DEMO_OUTPUT" with Some v => v | None => "out.ppm" end.
Proof.
  split; [destruct e; reflexivity|]. split; [|reflexivity].
  unfold enableValidationLayers.
  destruct (env "DEMO_USE_VALIDATION") as [v|].
  - rewrite strncmp_one. split.
    + intro H. exists v. auto.
    + intros (v' & Hv & H). injection Hv as ->. exact H.
  - split; [discriminate|]. intros (v & Hv & _). discriminate.
Qed.

End ConfigFacts.

Module SpirvFacts.
Import Spirv.

Lemma read_words_exact (n : nat) (c : list Byte.byte) :
  List.length c = 4 * n ->
  List.length (read_words n c) = n /\ words_bytes (read_words n c) = c.
Proof.
  revert c. induction n as [|n IH]; intros c Hc.
  - destruct c; [split; reflexivity | discriminate].
  - destruct c as [|b0 [|b1 [|b2 [|b3 rest]]]]; simpl in Hc; try lia.
    destruct (IH rest) as [H1 H2]; [lia|].
    simpl. rewrite H1. split; [reflexivity|].
    unfold words_bytes in H2 |- *. simpl. rewrite H2. reflexivity.
Qed.

(** C8: [LoadSPIRV] fails exactly when the file cannot be opened or its
    size is not a multiple of 4; otherwise it returns [fileSize / 4]
    words whose bytes are the file's contents. *)
Theorem LoadSPIRV_spec (fs : FS) (name : string) :
  (is_error (LoadSPIRV fs name) = true <->
     fs name = None \/ exists c, fs name = Some c /\ List.length c mod 4 <> 0) /\
  (forall c, fs name = Some c -> List.length c mod 4 = 0 ->
     exists ws, LoadSPIRV fs name = Ok ws /\
                List.length ws = List.length c / 4 /\ words_bytes ws = c).
Proof.
  unfold LoadSPIRV. split.
  - destruct (fs name) as [c|].
    + destruct (Nat.eqb_spec (List.length c mod 4) 0) as [H|H]; simpl.
      * split; [discriminate|]. intros [E|(c' & E & H')]; [discriminate|].
        injection E as <-. contradiction.
      * split; [intros _; right; exists c; auto | reflexivity].
    + split; [intros _; left; reflexivity | reflexivity].
  - intros c -> Hm. rewrite Hm. cbn -[Nat.div].
    eexists; split; [reflexivity|].
    apply read_words_exact.
    pose proof (Nat.div_mod (List.length c) 4 ltac:(lia)). lia.
Qed.

Lemma LoadSPIRV_spec_witness :
  spv_bytes = spv_bytes /\ List.length spv_bytes mod 4 = 0 /\
  (exists ws, LoadSPIRV (fun _ => Some spv_bytes) "a.spv" = Ok ws /\
     List.length ws = List.length spv_bytes / 4 /\ words_bytes ws = spv_bytes).
Proof.
  split; [reflexivity|]. split; [reflexivity|].
  apply (proj2 (LoadSPIRV_spec (fun _ => Some spv_bytes) "a.spv") spv_bytes); reflexivity.
Defined.

End SpirvFacts.

Module PpmFacts.
Import Ppm.

Lemma firstn3_texel (f : format) (t : rgba) :
  firstn 3 (texel_bytes f t) =
  [nth 0 (texel_bytes f t) Byte.x00; nth 1 (texel_bytes f t) Byte.x00; nth 2 (texel_bytes f t) Byte.x00].
Proof. destruct f; reflexivity. Qed.

Section Layout.
Variables (f : format) (img : Image) (rowPitch w h : nat) (data : Mem).
Hypothesis Hlayout : linear_layout f img rowPitch w h data.

Lemma write_row_layout (y x0 n : nat) :
  y < h -> x0 + n <= w ->
  write_row data (y * rowPitch + 4 * x0) n = fmt_row f img y x0 n.
Proof.
  revert x0. induction n as [|n IH]; intros x0 Hy Hx; [reflexivity|].
  cbn [write_row fmt_row]. rewrite firstn3_texel.
  rewrite <- (Hlayout x0 y 0), <- (Hlayout x0 y 1), <- (Hlayout x0 y 2) by lia.
  replace (y * rowPitch + 4 * x0 + 4) with (y * rowPitch + 4 * S x0) by lia.
  rewrite IH by lia. rewrite Nat.add_0_r. reflexivity.
Qed.

Lemma write_rows_layout (y0 n : nat) :
  y0 + n <= h ->
  write_rows data (y0 * rowPitch) rowPitch w n = fmt_rows f img y0 w n.
Proof.
  revert y0. induction n as [|n IH]; intros y0 Hy; [reflexivity|].
  cbn [write_rows fmt_rows]. rewrite <- IH by lia.
  pose proof (write_row_layout y0 0 w ltac:(lia) ltac:(lia)) as Hr.
  rewrite Nat.mul_0_r, Nat.add_0_r in Hr. rewrite Hr.
  replace (y0 * rowPitch + rowPitch) with (S y0 * rowPitch) by lia.
  reflexivity.
Qed.

End Layout.

Lemma fmt_row_length f img y x0 n : List.length (fmt_row f img y x0 n) = 3 * n.
Proof.
  revert x0. induction n as [|n IH]; intros x0; [reflexivity|].
  cbn [fmt_row]. rewrite List.length_app, IH. destruct f; simpl; lia.
Qed.

Lemma fmt_rows_length f img y0 w n : List.length (fmt_rows f img y0 w n) = 3 * w * n.
Proof.
  revert y0. induction n as [|n IH]; intros y0; [simpl; lia|].
  cbn [fmt_rows]. rewrite List.length_app, fmt_row_length, IH. lia.
Qed.

Lemma fmt_row_rgb img y x0 n : fmt_row R8G8B8A8 img y x0 n = rgb_row img y x0 n.
Proof.
  revert x0. induction n as [|n IH]; intros x0; [reflexivity|]. simpl. rewrite IH. reflexivity.
Qed.

Lemma fmt_rows_rgb img y0 w n : fmt_rows R8G8B8A8 img y0 w n = rgb_rows img y0 w n.
Proof.
  revert y0. induction n as [|n IH]; intros y0; [reflexivity|].
  simpl. rewrite fmt_row_rgb, IH. reflexivity.
Qed.

Lemma fmt_row_bgr img y x0 n : fmt_row B8G8R8A8 img y x0 n = rgb_row (swap_rb img) y x0 n.
Proof.
  revert x0. induction n as [|n IH]; intros x0; [reflexivity|]. simpl. rewrite IH. reflexivity.
Qed.

Lemma fmt_rows_bgr img y0 w n : fmt_rows B8G8R8A8 img y0 w n = rgb_rows (swap_rb img) y0 w n.
Proof.
  revert y0. induction n as [|n IH]; intros y0; [reflexivity|].
  simpl. rewrite fmt_row_bgr, IH. reflexivity.
Qed.

Lemma rgb_row_length img y x0 w : List.length (rgb_row img y x0 w) = 3 * w.
Proof.
  revert x0. induction w as [|w IH]; intros x0; [reflexivity|].
  simpl. rewrite IH. lia.
Qed.

Lemma rgb_row_nth img y x0 w x k d : x < w -> k < 3 ->
  nth (3 * x + k) (rgb_row img y x0 w) d =
  nth k [r (img (x0 + x) y); g (img (x0 + x) y); b (img (x0 + x) y)] d.
Proof.
  revert x0 x. induction w as [|w IH]; intros x0 x Hx Hk; [lia|].
  destruct x as [|x].
  - replace (3 * 0 + k) with k by lia. rewrite Nat.add_0_r.
    destruct k as [|[|[|k]]]; try reflexivity. lia.
  - replace (3 * S x + k) with (S (S (S (3 * x + k)))) by lia.
    cbn [rgb_row app nth]. rewrite IH by lia.
    replace (S x0 + x) with (x0 + S x) by lia. reflexivity.
Qed.

Lemma rgb_rows_nth img y0 w h x y k d : x < w -> y < h -> k < 3 ->
  nth (3 * w * y + (3 * x + k)) (rgb_rows img y0 w h) d =
  nth k [r (img x (y0 + y)); g (img x (y0 + y)); b (img x (y0 + y))] d.
Proof.
  revert y0 y. induction h as [|h IH]; intros y0 y Hx Hy Hk; [lia|].
  cbn [rgb_rows]. destruct y as [|y].
  - rewrite Nat.mul_0_r, Nat.add_0_l, Nat.add_0_r.
    rewrite app_nth1 by (rewrite rgb_row_length; lia).
    rewrite rgb_row_nth by assumption. reflexivity.
  - rewrite app_nth2 by (rewrite rgb_row_length; nia).
    rewrite rgb_row_length.
    replace (3 * w * S y + (3 * x + k) - 3 * w) with (3 * w * y + (3 * x + k)) by nia.
    rewrite IH by lia. replace (S y0 + y) with (y0 + S y) by lia. reflexivity.
Qed.

(** The RGB file of an image with its red and blue channels swapped is
    not the image's RGB file when some texel has different R and B. *)
Lemma spec_ppm_swap_rb_neq img w h x y : x < w -> y < h -> r (img x y) <> b (img x y) ->
  spec_ppm (swap_rb img) w h <> spec_ppm img w h.
Proof.
  intros Hx Hy Hrb Heq. unfold spec_ppm in Heq. apply app_inv_head in Heq.
  apply (f_equal (fun l => nth (3 * w * y + (3 * x + 0)) l Byte.x00)) in Heq.
  cbv beta in Heq. rewrite !rgb_rows_nth in Heq by lia.
  simpl in Heq. apply Hrb. symmetry. exact Heq.
Qed.

End PpmFacts.

Module PpmClaims.
Import Ppm PpmFacts.

Lemma layout_mem_ok (f : format) (img : Image) (rowPitch w h : nat) :
  4 * w <= rowPitch -> linear_layout f img rowPitch w h (layout_mem f img rowPitch w).
Proof.
  intros Hp x y k Hx Hy Hk. unfold layout_mem.
  assert (Hq : 4 * x + k < rowPitch) by lia.
  replace (y * rowPitch + 4 * x + k) with (4 * x + k + y * rowPitch) by lia.
  rewrite Nat.div_add by lia. rewrite Nat.Div0.mod_add by lia.
  rewrite (Nat.div_small (4 * x + k) rowPitch), (Nat.mod_small (4 * x + k) rowPitch) by lia.
  replace (Nat.ltb (4 * x + k) (4 * w)) with true by (symmetry; apply Nat.ltb_lt; lia).
  replace (4 * x + k) with (k + x * 4) by lia.
  rewrite Nat.Div0.mod_add, Nat.div_add by lia.
  rewrite Nat.mod_small, Nat.div_small by lia. reflexivity.
Qed.

(** C1 (code bug, failing input): the GLFW example dumps its
    [B8G8R8A8] swapchain image, copied byte for byte into the
    [R8G8B8A8] linear image with no component flip, so a red 1 x 1
    frame is written as the triplet (0, 0, 255) instead of the
    documented R, G, B bytes (255, 0, 0). *)
Lemma ppm_dump_glfw_not_rgb :
  linear_layout (dumped_format Config.vktriangle_glfw) red_image 4 1 1
    (layout_mem (dumped_format Config.vktriangle_glfw) red_image 4 1) /\
  dump (layout_mem (dumped_format Config.vktriangle_glfw) red_image 4 1) 4 1 1
    = app (header 1 1) [Byte.x00; Byte.x00; Byte.xff] /\
  dump (layout_mem (dumped_format Config.vktriangle_glfw) red_image 4 1) 4 1 1
    <> spec_ppm red_image 1 1.
Proof.
  split; [apply layout_mem_ok; lia|].
  split; [vm_compute; reflexivity|].
  vm_compute. discriminate.
Qed.

(** C1 (code bug): every dump is the header "P6\n<w>\n<h>\n255\n"
    followed by [3 * w * h] bytes, the first three memory bytes of each
    4-byte texel, row by row; the source rows are read [rowPitch] bytes
    apart, the file rows are not padded.  For the [R8G8B8A8] images
    (vktriangle, compute) these bytes are the documented R, G, B
    triplets.  The swapchain examples (GLFW, subpass, external memory)
    dump the [B8G8R8A8] swapchain image without flipping its
    components, so their file is the RGB file of the image with red and
    blue swapped, and it is not the documented RGB file as soon as one
    texel has R <> B. *)
Theorem ppm_dump_swapchain_bgr (e : Config.Example) (img : Image) (rowPitch w h : nat) (data : Mem) :
  linear_layout (dumped_format e) img rowPitch w h data ->
  header w h = list_byte_of_string ("P6" ++ nl ++ dec w ++ nl ++ dec h ++ nl ++ "255" ++ nl) /\
  dump data rowPitch w h = app (header w h) (fmt_rows (dumped_format e) img 0 w h) /\
  List.length (dump data rowPitch w h) = List.length (header w h) + 3 * w * h /\
  (dumped_format e = R8G8B8A8 -> dump data rowPitch w h = spec_ppm img w h) /\
  (dumped_format e = B8G8R8A8 ->
     dump data rowPitch w h = spec_ppm (swap_rb img) w h /\
     (forall x y, x < w -> y < h -> r (img x y) <> b (img x y) ->
        dump data rowPitch w h <> spec_ppm img w h)).
Proof.
  intros H.
  assert (Hd : dump data rowPitch w h = app (header w h) (fmt_rows (dumped_format e) img 0 w h)).
  { unfold dump. f_equal. apply (write_rows_layout _ _ _ _ _ _ H 0 h). lia. }
  split; [reflexivity|]. split; [exact Hd|]. split.
  { rewrite Hd, List.length_app, fmt_rows_length. reflexivity. }
  split.
  - intros Hf. rewrite Hd. unfold spec_ppm. f_equal. rewrite Hf. apply fmt_rows_rgb.
  - intros Hf.
    assert (Hb : dump data rowPitch w h = spec_ppm (swap_rb img) w h).
    { rewrite Hd. unfold spec_ppm. f_equal. rewrite Hf. apply fmt_rows_bgr. }
    split; [exact Hb|].
    intros x y Hx Hy Hrb. rewrite Hb. exact (spec_ppm_swap_rb_neq img w h x y Hx Hy Hrb).
Qed.

Lemma ppm_dump_swapchain_bgr_witness :
  linear_layout (dumped_format Config.vktriangle_glfw) red_image 12 2 2
    (layout_mem (dumped_format Config.vktriangle_glfw) red_image 12 2) /\
  dump (layout_mem (dumped_format Config.vktriangle_glfw) red_image 12 2) 12 2 2
    <> spec_ppm red_image 2 2.
Proof.
  assert (H : linear_layout (dumped_format Config.vktriangle_glfw) red_image 12 2 2
                (layout_mem (dumped_format Config.vktriangle_glfw) red_image 12 2))
    by (apply layout_mem_ok; lia).
  assert (Hrb : r (red_image 1 1) <> b (red_image 1 1)) by discriminate.
  split; [exact H|].
  exact (proj2 (proj2 (proj2 (proj2 (proj2
           (ppm_dump_swapchain_bgr Config.vktriangle_glfw red_image 12 2 2 _ H)))) eq_refl)
           1 1 ltac:(lia) ltac:(lia) Hrb).
Defined.

End PpmClaims.

Module FrameLoopFacts.
Import FrameLoop.
Local Open Scope list_scope.

Lemma set_nth_length {A} (l : list A) n v : List.length (set_nth l n v) = List.length l.
Proof.
  revert n. induction l as [|x t IH]; intros [|n]; simpl; auto.
Qed.

Lemma nth_error_set_nth_same {A} (l : list A) n v :
  n < List.length l -> nth_error (set_nth l n v) n = Some v.
Proof.
  revert n. induction l as [|x t IH]; intros [|n] H; simpl in *; try lia; auto.
  apply IH. lia.
Qed.

Lemma nth_error_set_nth_other {A} (l : list A) n v m :
  n <> m -> nth_error (set_nth l n v) m = nth_error l m.
Proof.
  revert n m. induction l as [|x t IH]; intros [|n] [|m] H; simpl; auto; try congruence.
Qed.

Lemma pre_submit_fields (e : frame_env) (s : state) :
  let m := pre_submit e s in
  activeSyncIdx m = activeSyncIdx s /\
  submitted m = submitted s /\
  fence_seq m = fence_seq s /\
  swapImagesFences m = set_nth (swapImagesFences s) (acquired e) (Some (activeSyncIdx s)) /\
  trace m = trace s ++ [glfwPollEvents; vkWaitForFences (activeSyncIdx s);
                        vkAcquireNextImageKHR (activeSyncIdx s)]
            ++ guard_calls (swapImagesFences s) (acquired e)
            ++ [vkResetFences (activeSyncIdx s)] /\
  done s <= done m /\
  (res_guard e = VK_SUCCESS -> forall f,
     nth_error (swapImagesFences s) (acquired e) = Some (Some f) -> fence_seq s f <= done m).
Proof.
  unfold pre_submit, guard_calls, wait_fence, emit, set_table; simpl.
  destruct (is_success (res_wait e)); simpl;
  destruct (nth_error (swapImagesFences s) (acquired e)) as [[f|]|]; simpl;
  try destruct (is_success (res_guard e)) eqn:Eg; simpl;
  repeat split; repeat rewrite <- app_assoc; simpl; try reflexivity; try lia;
  intros Hg f' Hf; try discriminate; injection Hf as <-;
  try (rewrite Hg in Eg; discriminate); lia.
Qed.

Lemma post_submit_ok (e : frame_env) (m : state) :
  is_success (res_submit e) = true ->
  post_submit e m = inr
    {| activeSyncIdx := (activeSyncIdx m + 1) mod imagesInFlight;
       swapImagesFences := swapImagesFences m;
       submitted := submitted m ++ [acquired e];
       done := done m;
       fence_seq := fun f => if Nat.eqb f (activeSyncIdx m) then S (List.length (submitted m))
                             else fence_seq m f;
       trace := trace m ++ [vkQueueSubmit (acquired e) (activeSyncIdx m) (activeSyncIdx m) (activeSyncIdx m);
                            vkQueuePresentKHR (acquired e) (activeSyncIdx m)] |}.
Proof.
  intros H. unfold post_submit, emit. rewrite H. simpl.
  rewrite <- app_assoc. reflexivity.
Qed.

Lemma post_submit_fail (e : frame_env) (m : state) :
  is_success (res_submit e) = false -> is_abort (post_submit e m) = true.
Proof. intros H. unfold post_submit. rewrite H. reflexivity. Qed.

Lemma iteration_abort (e : frame_env) (s : state) :
  is_abort (iteration e s) = negb (is_success (res_submit e)).
Proof.
  unfold iteration. destruct (is_success (res_submit e)) eqn:H.
  - rewrite post_submit_ok by exact H. reflexivity.
  - apply post_submit_fail, H.
Qed.

Lemma run_abort (es : list frame_env) (s : state) :
  is_abort (run es s) = existsb (fun e => negb (is_success (res_submit e))) es.
Proof.
  revert s. induction es as [|e es IH]; intros s; [reflexivity|].
  simpl. pose proof (iteration_abort e s) as H.
  destruct (iteration e s) as [m|s']; simpl in H.
  - rewrite <- H. reflexivity.
  - rewrite <- H. simpl. apply IH.
Qed.

Lemma iteration_ok (e : frame_env) (s s' : state) :
  iteration e s = inr s' ->
  is_success (res_submit e) = true /\
  s' = {| activeSyncIdx := (activeSyncIdx s + 1) mod imagesInFlight;
          swapImagesFences := set_nth (swapImagesFences s) (acquired e) (Some (activeSyncIdx s));
          submitted := submitted s ++ [acquired e];
          done := done (pre_submit e s);
          fence_seq := fun f => if Nat.eqb f (activeSyncIdx s) then S (List.length (submitted s))
                                else fence_seq s f;
          trace := trace (pre_submit e s) ++
                     [vkQueueSubmit (acquired e) (activeSyncIdx s) (activeSyncIdx s) (activeSyncIdx s);
                      vkQueuePresentKHR (acquired e) (activeSyncIdx s)] |}.
Proof.
  intros H. change (post_submit e (pre_submit e s) = inr s') in H.
  destruct (pre_submit_fields e s) as (H1 & H2 & H3 & H4 & _).
  set (m := pre_submit e s) in *. clearbody m.
  destruct (is_success (res_submit e)) eqn:Es.
  - rewrite post_submit_ok in H by exact Es. injection H as <-.
    split; [reflexivity|]. rewrite H1, H2, H3, H4. reflexivity.
  - pose proof (post_submit_fail e m Es) as Ha. rewrite H in Ha. discriminate.
Qed.

Lemma Inv_init (n : nat) : Inv n (init n).
Proof.
  split; [apply repeat_length|]. split; [intros; simpl; lia|].
  intros img [|k]; simpl; discriminate.
Qed.

Lemma guard_completes (n : nat) (e : frame_env) (s : state) :
  Inv n s -> ok_env n e ->
  forall k, nth_error (submitted s) k = Some (acquired e) -> k < done (pre_submit e s).
Proof.
  intros (Hlen & Hseq & Hsub) (Hacq & Hg) k Hk.
  destruct (pre_submit_fields e s) as (_ & _ & _ & _ & _ & Hd & Hf).
  destruct (Hsub _ _ Hk) as [Hlt|(f & Hnth & Hlt)].
  - lia.
  - specialize (Hf Hg f Hnth). lia.
Qed.

Lemma Inv_iteration (n : nat) (e : frame_env) (s s' : state) :
  Inv n s -> acquired e < n -> iteration e s = inr s' -> Inv n s'.
Proof.
  intros (Hlen & Hseq & Hsub) Hacq Hit.
  destruct (iteration_ok e s s' Hit) as (_ & ->).
  destruct (pre_submit_fields e s) as (_ & _ & _ & _ & _ & Hd & _).
  split; [simpl; rewrite set_nth_length; exact Hlen|].
  split.
  { intros f. simpl. rewrite List.length_app. simpl.
    destruct (Nat.eqb f (activeSyncIdx s)); [lia|]. specialize (Hseq f). lia. }
  intros img k Hk. cbn [submitted done swapImagesFences fence_seq] in Hk |- *.
  destruct (Nat.lt_ge_cases k (List.length (submitted s))) as [Hlt|Hge].
  - rewrite nth_error_app1 in Hk by exact Hlt.
    destruct (Nat.eq_dec img (acquired e)) as [->|Hne].
    + right. exists (activeSyncIdx s).
      rewrite nth_error_set_nth_same by lia. split; [reflexivity|].
      rewrite Nat.eqb_refl. lia.
    + destruct (Hsub _ _ Hk) as [Hl|(f & Hnth & Hl)]; [left; lia|].
      right. exists f. rewrite nth_error_set_nth_other by congruence. split; [exact Hnth|].
      destruct (Nat.eqb_spec f (activeSyncIdx s)); [|exact Hl].
      specialize (Hseq f). lia.
  - rewrite nth_error_app2 in Hk by exact Hge.
    destruct (k - List.length (submitted s)) as [|j] eqn:Ej; simpl in Hk;
      [|destruct j; discriminate].
    injection Hk as <-. right. exists (activeSyncIdx s).
    rewrite nth_error_set_nth_same by lia. split; [reflexivity|].
    rewrite Nat.eqb_refl. lia.
Qed.

Lemma Inv_run (n : nat) (es : list frame_env) (s0 s : state) :
  Inv n s0 -> Forall (fun e => acquired e < n) es -> run es s0 = inr s -> Inv n s.
Proof.
  revert s0. induction es as [|e es IH]; intros s0 HI Hes Hr.
  - injection Hr as <-. exact HI.
  - inversion Hes as [|? ? He Hes']; subst. simpl in Hr.
    destruct (iteration e s0) as [m|s1] eqn:Hit; [discriminate|].
    exact (IH s1 (Inv_iteration n e s0 s1 HI He Hit) Hes' Hr).
Qed.

Lemma run_slot (es : list frame_env) (s0 s : state) :
  activeSyncIdx s0 < imagesInFlight -> run es s0 = inr s ->
  activeSyncIdx s = (activeSyncIdx s0 + List.length es) mod imagesInFlight.
Proof.
  unfold imagesInFlight.
  revert s0. induction es as [|e es IH]; intros s0 H0 Hr.
  - injection Hr as <-. rewrite Nat.add_0_r, Nat.mod_small by exact H0. reflexivity.
  - simpl in Hr. destruct (iteration e s0) as [m|s1] eqn:Hit; [discriminate|].
    destruct (iteration_ok e s0 s1 Hit) as (_ & Hs1).
    assert (Ha : activeSyncIdx s1 = (activeSyncIdx s0 + 1) mod 2) by (rewrite Hs1; reflexivity).
    rewrite (IH s1) by (try exact Hr; rewrite Ha; apply Nat.mod_upper_bound; lia).
    rewrite Ha, Nat.Div0.add_mod_idemp_l. simpl List.length. f_equal. lia.
Qed.

End FrameLoopFacts.

Module FrameLoopClaims.
Import FrameLoop FrameLoopFacts.
Local Open Scope list_scope.

(** C2 (as stated, refuted): an iteration whose first fence wait fails
    and whose present reports [VK_ERROR_OUT_OF_DATE_KHR] does not abort
    the program; the loop goes on to the next iteration. *)
Lemma frame_loop_errors_not_fatal :
  has_error_result (frame_present_out_of_date 0) = true /\
  is_abort (run [frame_present_out_of_date 0; frame_ok 1] (init 3)) = false /\
  ~ (forall es s, existsb has_error_result es = true -> is_abort (run es s) = true).
Proof.
  split; [reflexivity|]. split; [vm_compute; reflexivity|].
  intros H. specialize (H [frame_present_out_of_date 0; frame_ok 1] (init 3) eq_refl).
  vm_compute in H. discriminate.
Qed.

(** C2 (amended): in the frame loop only the result of [vkQueueSubmit]
    is checked; the loop aborts with "failed to submit command buffer!"
    exactly when some submit does not return [VK_SUCCESS], and the
    results of the fence waits, the acquire, the reset and the present
    are discarded. *)
Theorem frame_loop_only_submit_fatal (es : list frame_env) (s : state) :
  is_abort (run es s) = existsb (fun e => negb (is_success (res_submit e))) es /\
  (forall msg, run es s = inl msg -> msg = "failed to submit command buffer!"%string).
Proof.
  split; [apply run_abort|].
  revert s. induction es as [|e es IH]; intros s msg Hr; [discriminate|].
  simpl in Hr. destruct (iteration e s) as [m|s'] eqn:Hit.
  - injection Hr as <-. unfold iteration, post_submit in Hit.
    destruct (is_success (res_submit e)); simpl in Hit; congruence.
  - exact (IH s' msg Hr).
Qed.

(** C3: the slot index is [k mod 2] at iteration [k], so it stays in
    [0, 2); each iteration waits on [activeFences[i]], acquires an image
    signalling [imageAvailableSemaphores[i]], optionally waits on the
    image's previous fence, resets [activeFences[i]], submits
    [cmdBuffers[imageIndex]] signalling [renderFinishedSemaphores[i]]
    and [activeFences[i]], presents [imageIndex] gated on
    [renderFinishedSemaphores[i]], and sets [i = (i + 1) mod 2]. *)
Theorem frame_loop_order (n : nat) (es : list frame_env) (e : frame_env) (s s' : state) :
  run es (init n) = inr s -> iteration e s = inr s' ->
  imagesInFlight = 2 /\
  activeSyncIdx s = List.length es mod imagesInFlight /\
  activeSyncIdx s < imagesInFlight /\
  activeSyncIdx s' = (activeSyncIdx s + 1) mod imagesInFlight /\
  trace s' = trace s ++
    [glfwPollEvents; vkWaitForFences (activeSyncIdx s); vkAcquireNextImageKHR (activeSyncIdx s)] ++
    guard_calls (swapImagesFences s) (acquired e) ++
    [vkResetFences (activeSyncIdx s);
     vkQueueSubmit (acquired e) (activeSyncIdx s) (activeSyncIdx s) (activeSyncIdx s);
     vkQueuePresentKHR (acquired e) (activeSyncIdx s)].
Proof.
  intros Hr Hit.
  pose proof (run_slot es (init n) s ltac:(simpl; unfold imagesInFlight; lia) Hr) as Hslot.
  change (activeSyncIdx (init n)) with 0 in Hslot. rewrite Nat.add_0_l in Hslot.
  destruct (iteration_ok e s s' Hit) as (_ & ->).
  destruct (pre_submit_fields e s) as (_ & _ & _ & _ & Ht & _).
  split; [reflexivity|]. split; [exact Hslot|].
  split; [rewrite Hslot; apply Nat.mod_upper_bound; unfold imagesInFlight; lia|].
  split; [reflexivity|].
  cbn [trace]. rewrite Ht. repeat rewrite <- app_assoc. reflexivity.
Qed.

Lemma frame_loop_order_witness :
  run [frame_ok 0] (init 3) = inr (state_or (run [frame_ok 0] (init 3)) (init 3)) /\
  iteration (frame_ok 1) (state_or (run [frame_ok 0] (init 3)) (init 3))
    = inr (state_or (iteration (frame_ok 1) (state_or (run [frame_ok 0] (init 3)) (init 3))) (init 3)) /\
  activeSyncIdx (state_or (run [frame_ok 0] (init 3)) (init 3)) = 1.
Proof.
  assert (H1 : run [frame_ok 0] (init 3) = inr (state_or (run [frame_ok 0] (init 3)) (init 3)))
    by reflexivity.
  assert (H2 : iteration (frame_ok 1) (state_or (run [frame_ok 0] (init 3)) (init 3))
    = inr (state_or (iteration (frame_ok 1) (state_or (run [frame_ok 0] (init 3)) (init 3))) (init 3)))
    by reflexivity.
  split; [exact H1|]. split; [exact H2|].
  exact (proj1 (proj2 (frame_loop_order 3 [frame_ok 0] (frame_ok 1) _ _ H1 H2))).
Defined.

(** C4 (as stated, refuted): the first frame submits image 0 with slot
    0's fence; the second frame (slot 1) acquires image 0 again, waits
    on fence 0, and that wait fails with [VK_ERROR_DEVICE_LOST].  The
    loop ignores the result and submits for image 0 while the earlier
    submission for image 0 has not completed. *)
Lemma frame_loop_guard_wait_fails :
  let s := state_or (run [frame_ok 0] (init 3)) (init 3) in
  let e := frame_guard_fails 0 in
  run [frame_ok 0] (init 3) = inr s /\
  activeSyncIdx s = 1 /\
  nth_error (swapImagesFences s) 0 = Some (Some 0) /\
  trace (pre_submit e s) = trace s ++
    [glfwPollEvents; vkWaitForFences 1; vkAcquireNextImageKHR 1;
     vkWaitForFences 0; vkResetFences 1] /\
  is_abort (iteration e s) = false /\
  nth_error (submitted (pre_submit e s)) 0 = Some 0 /\
  done (pre_submit e s) = 0 /\
  ~ (forall k, nth_error (submitted (pre_submit e s)) k = Some (acquired e) ->
       k < done (pre_submit e s)).
Proof.
  cbv zeta. vm_compute. split; [reflexivity|].
  do 6 (split; [reflexivity|]).
  intros H. specialize (H 0 eq_refl). inversion H.
Qed.

(** C4 (amended): when [swapImagesFences[imageIndex]] holds a fence, the
    iteration waits on it right after the acquire and before the submit,
    and it then records [activeFences[i]] for the image.  The result of
    that wait is discarded: the iteration submits, and aborts only when
    [vkQueueSubmit] fails, whatever the wait returned.  When the wait
    returns [VK_SUCCESS], every earlier submission for the same image has
    completed at the submit (the acquired indices being swapchain
    images). *)
Theorem frame_loop_guard (n : nat) (es : list frame_env) (e : frame_env) (s : state) :
  Forall (fun e' => acquired e' < n) es -> acquired e < n -> run es (init n) = inr s ->
  (forall f, nth_error (swapImagesFences s) (acquired e) = Some (Some f) ->
     trace (pre_submit e s) = trace s ++
       [glfwPollEvents; vkWaitForFences (activeSyncIdx s); vkAcquireNextImageKHR (activeSyncIdx s);
        vkWaitForFences f; vkResetFences (activeSyncIdx s)]) /\
  nth_error (swapImagesFences (pre_submit e s)) (acquired e) = Some (Some (activeSyncIdx s)) /\
  is_abort (iteration e s) = negb (is_success (res_submit e)) /\
  (res_guard e = VK_SUCCESS ->
     forall k, nth_error (submitted (pre_submit e s)) k = Some (acquired e) ->
       k < done (pre_submit e s)).
Proof.
  intros Hes Hacq Hr.
  pose proof (Inv_run n es (init n) s (Inv_init n) Hes Hr) as HI.
  destruct (pre_submit_fields e s) as (_ & Hsub & _ & Htab & Ht & _).
  split.
  { intros f Hf. rewrite Ht. unfold guard_calls. rewrite Hf. reflexivity. }
  split.
  { rewrite Htab. apply nth_error_set_nth_same. destruct HI as (Hlen & _). lia. }
  split; [apply iteration_abort|].
  intros Hg. rewrite Hsub. apply (guard_completes n e s HI). split; assumption.
Qed.

Lemma frame_loop_guard_witness :
  nth_error (swapImagesFences (state_or (run [frame_ok 0; frame_ok 1; frame_ok 2] (init 3)) (init 3))) 0
    = Some (Some 0) /\
  nth_error (swapImagesFences (pre_submit (frame_ok 0)
              (state_or (run [frame_ok 0; frame_ok 1; frame_ok 2] (init 3)) (init 3)))) 0
    = Some (Some 1).
Proof.
  assert (Hes : Forall (fun e' => acquired e' < 3) [frame_ok 0; frame_ok 1; frame_ok 2])
    by (repeat constructor; simpl; lia).
  assert (He : acquired (frame_ok 0) < 3) by (simpl; lia).
  assert (Hr : run [frame_ok 0; frame_ok 1; frame_ok 2] (init 3)
             = inr (state_or (run [frame_ok 0; frame_ok 1; frame_ok 2] (init 3)) (init 3)))
    by reflexivity.
  split; [vm_compute; reflexivity|].
  exact (proj1 (proj2 (frame_loop_guard 3 _ _ _ Hes He Hr))).
Defined.

End FrameLoopClaims.

Module ShaderClaims.
Import QArith Qround Glsl.

Lemma Qltb_true (a b : Q) : Qltb a b = true <-> a < b.
Proof.
  unfold Qltb. rewrite negb_true_iff. split.
  - intros H. apply Qnot_le_lt. intros Hle. apply Qle_bool_iff in Hle. congruence.
  - intros H. destruct (Qle_bool b a) eqn:E; [|reflexivity].
    apply Qle_bool_iff in E. exfalso. apply (Qlt_not_le a b H E).
Qed.

Lemma Qltb_false (a b : Q) : Qltb a b = false <-> b <= a.
Proof.
  unfold Qltb. rewrite negb_false_iff. apply Qle_bool_iff.
Qed.

(** The three colorizer draws rasterise the same clip-space triangle. *)
Lemma colorizer_draws_covers (raster : list (Q * Q * Q * Q) -> bool) :
  map (Subpass.covers raster) Subpass.colorizer_draws =
    repeat (raster (Subpass.draw_vertices (Subpass.mkdraw 3 1 0 0))) 3.
Proof. reflexivity. Qed.

Lemma compose_background (red green blue : vec4) (fx fy : Q) :
  (x red < 1 # 100 \/ y green < 1 # 100 \/ z blue < 1 # 100) ->
  vec4_eq (Subpass.compose red green blue fx fy) (Subpass.checkerboard fx fy).
Proof.
  intros H. unfold Subpass.compose, Subpass.checkerboard.
  replace (Qltb (x red) (1 # 100) || Qltb (y green) (1 # 100) || Qltb (z blue) (1 # 100)) with true.
  2:{ symmetry. rewrite !orb_true_iff, !Qltb_true. tauto. }
  destruct (Qltb (glsl_mod fx 40) 20), (Qltb (glsl_mod fy 40) 20);
    unfold vec4_eq, int_of_bool; simpl; repeat split; reflexivity.
Qed.

(** C6: the compose shader outputs the sampled channels (r of the red,
    g of the green, b of the blue attachment) when all three are at
    least 0.01, and the checkerboard (gray 0.1 where mod(x, 40) < 20 and
    mod(y, 40) < 20, black otherwise) when any of them, in particular
    when all three, are below 0.01.  The three colorizer draws use the
    same vertex buffer, vertices and pass-through vertex shader, so a
    pixel is covered by none or all three of the triangles: no pixel is
    covered by exactly one of them, and the statement about such pixels
    holds for every one there is.  A pixel covered by none shows the
    checkerboard. *)
Theorem compose_spec (raster : list (Q * Q * Q * Q) -> bool) (instanceId : nat -> Z)
    (fragColor : Q * Q * Q) (undef : nat -> nat -> vec4) (red green blue : vec4) (fx fy : Q) :
  let n := List.length (filter (Subpass.covers raster) Subpass.colorizer_draws) in
  (n = 0 \/ n = 3)%nat /\
  (forall (k : nat) (d : Subpass.draw),
     nth_error Subpass.colorizer_draws k = Some d ->
     filter (Subpass.covers raster) Subpass.colorizer_draws = [d] ->
     let o := Subpass.composed raster instanceId fragColor undef fx fy in
     ~ (Subpass.channel o k == 0) /\
     (forall j : nat, (j < 3)%nat -> j <> k -> Subpass.channel o j == 0)) /\
  ((x red < 1 # 100 /\ y green < 1 # 100 /\ z blue < 1 # 100) ->
     vec4_eq (Subpass.compose red green blue fx fy) (Subpass.checkerboard fx fy)) /\
  ((x red < 1 # 100 \/ y green < 1 # 100 \/ z blue < 1 # 100) ->
     vec4_eq (Subpass.compose red green blue fx fy) (Subpass.checkerboard fx fy)) /\
  ((1 # 100 <= x red /\ 1 # 100 <= y green /\ 1 # 100 <= z blue) ->
     vec4_eq (Subpass.compose red green blue fx fy) (mkvec4 (x red) (y green) (z blue) 1)) /\
  (n = 0%nat ->
     vec4_eq (Subpass.composed raster instanceId fragColor undef fx fy) (Subpass.checkerboard fx fy)).
Proof.
  cbv zeta.
  assert (Hn : List.length (filter (Subpass.covers raster) Subpass.colorizer_draws) =
                 if raster (Subpass.draw_vertices (Subpass.mkdraw 3 1 0 0)) then 3%nat else 0%nat).
  { change (Subpass.covers raster) with (fun d => raster (Subpass.draw_vertices d)).
    simpl. destruct (raster _); reflexivity. }
  split; [rewrite Hn; destruct (raster _); [right|left]; reflexivity|].
  split.
  { intros k d _ Hf. exfalso. apply (f_equal (@List.length _)) in Hf.
    rewrite Hn in Hf. destruct (raster _); discriminate. }
  split; [intros (Hr & _ & _); apply compose_background; left; exact Hr|].
  split; [apply compose_background|].
  split.
  - intros (Hr & Hg & Hb). unfold Subpass.compose.
    replace (Qltb (x red) (1 # 100) || Qltb (y green) (1 # 100) || Qltb (z blue) (1 # 100))
      with false.
    2:{ symmetry. rewrite !orb_false_iff, !Qltb_false. tauto. }
    unfold vec4_eq. simpl. repeat split; reflexivity.
  - intros H0. rewrite Hn in H0.
    destruct (raster (Subpass.draw_vertices (Subpass.mkdraw 3 1 0 0))) eqn:Er; [discriminate|].
    unfold Subpass.composed.
    replace (Subpass.attachments raster instanceId fragColor undef) with (fun _ : nat => Subpass.clearColor).
    2:{ assert (Hd : forall i, Subpass.covers raster (Subpass.mkdraw 3 1 0 i) = false)
          by (intros; exact Er).
        unfold Subpass.attachments, Subpass.run_subpass, Subpass.subpass0_draws,
          Subpass.subpass1_draws.
        cbn [fold_left]. unfold Subpass.run_draw. rewrite !Hd. reflexivity. }
    apply compose_background. left. reflexivity.
Qed.

Lemma compose_spec_witness :
  vec4_eq (Subpass.compose (mkvec4 1 0 0 1) (mkvec4 0 1 0 1) (mkvec4 0 0 1 1) (1 # 2) (1 # 2))
          (mkvec4 1 1 1 1) /\
  vec4_eq (Subpass.composed (fun _ => false) (fun i => Z.of_nat i) (1, 0, 0)
             (fun _ _ => Subpass.clearColor) (1 # 2) (1 # 2))
          (Subpass.checkerboard (1 # 2) (1 # 2)).
Proof.
  destruct (compose_spec (fun _ => false) (fun i => Z.of_nat i) (1, 0, 0)
              (fun _ _ => Subpass.clearColor) (mkvec4 1 0 0 1) (mkvec4 0 1 0 1) (mkvec4 0 0 1 1)
              (1 # 2) (1 # 2)) as (_ & _ & _ & _ & H5 & H6).
  split.
  - apply H5. simpl. repeat split; discriminate.
  - apply H6. reflexivity.
Defined.

Lemma int_of_uint_small (u : nat) : (Z.of_nat u < 2 ^ 31)%Z -> Invert.int_of_uint u = Z.of_nat u.
Proof.
  intros Hz. unfold Invert.int_of_uint.
  rewrite Z.mod_small by lia.
  replace (Z.of_nat u <? 2 ^ 31)%Z with true by (symmetry; apply Z.ltb_lt; exact Hz).
  reflexivity.
Qed.

(** C10: an invocation of the dispatch whose coordinate lies inside the
    input image stores (1 - r, 1 - g, 1 - b, 1.0) of the input texel at
    that coordinate; an invocation outside the image stores nothing. *)
Theorem invert_spec (load : Z * Z -> vec4) (w h : Z) (gid : nat * nat) :
  Invert.dispatched gid ->
  let c := (Z.of_nat (fst gid), Z.of_nat (snd gid)) in
  (((fst c < w)%Z /\ (snd c < h)%Z) ->
     Invert.invocation load (w, h) gid =
       Some {| Invert.coord := c;
               Invert.value := mkvec4 (1 - x (load c)) (1 - y (load c)) (1 - z (load c)) 1 |}) /\
  (~ ((fst c < w)%Z /\ (snd c < h)%Z) -> Invert.invocation load (w, h) gid = None).
Proof.
  intros (Hx & Hy). cbv zeta. unfold Invert.invocation.
  rewrite (int_of_uint_small (fst gid)), (int_of_uint_small (snd gid)) by lia.
  cbn [fst snd]. split.
  - intros (H1 & H2).
    rewrite (proj2 (Z.ltb_lt _ _) H1), (proj2 (Z.ltb_lt _ _) H2). reflexivity.
  - intros Hn. destruct (Z.ltb_spec (Z.of_nat (fst gid)) w), (Z.ltb_spec (Z.of_nat (snd gid)) h);
      simpl; try reflexivity; exfalso; apply Hn; split; assumption.
Qed.

Lemma invert_spec_witness :
  Invert.dispatched (3%nat, 4%nat) /\
  Invert.invocation (fun _ => mkvec4 (1 # 5) 0 1 1) (256, 256)%Z (3%nat, 4%nat) =
    Some {| Invert.coord := (3, 4)%Z;
            Invert.value := mkvec4 (1 - (1 # 5)) (1 - 0) (1 - 1) 1 |}.
Proof.
  assert (Hd : Invert.dispatched (3%nat, 4%nat)) by (unfold Invert.dispatched; simpl; lia).
  split; [exact Hd|].
  apply (proj1 (invert_spec (fun _ => mkvec4 (1 # 5) 0 1 1) 256 256 (3%nat, 4%nat) Hd)).
  simpl. lia.
Defined.

End ShaderClaims.

Module DeviceFacts.
Import Devices.

Lemma headless_find_from (queueFamilies : list Z) (k : nat) :
  snd (Headless.find_from queueFamilies k) = existsb has_graphics queueFamilies /\
  ((exists i q, nth_error queueFamilies i = Some q /\ has_graphics q = true /\
      (forall j q', j < i -> nth_error queueFamilies j = Some q' -> has_graphics q' = false) /\
      fst (Headless.find_from queueFamilies k) = Z.of_nat (k + i))
   \/ ((forall q, In q queueFamilies -> has_graphics q = false) /\
       fst (Headless.find_from queueFamilies k) = UINT32_MAX)).
Proof.
  revert k. induction queueFamilies as [|q rest IH]; intros k.
  - split; [reflexivity|]. right. split; [intros q []|reflexivity].
  - cbn [Headless.find_from existsb]. destruct (has_graphics q) eqn:Hq.
    + split; [reflexivity|]. left. exists 0, q.
      split; [reflexivity|]. split; [exact Hq|]. split; [intros j q' Hj; lia|].
      cbn [fst]. f_equal. lia.
    + destruct (IH (S k)) as [Hs Hf]. split; [exact Hs|].
      destruct Hf as [(i & q' & Hi & Hg & Hmin & Hfst)|(Hall & Hfst)].
      * left. exists (S i), q'. split; [exact Hi|]. split; [exact Hg|]. split.
        -- intros [|j] q'' Hj Hn; [injection Hn as <-; exact Hq|].
           apply (Hmin j); [lia|exact Hn].
        -- rewrite Hfst. f_equal. lia.
      * right. split; [|exact Hfst].
        intros q' [<-|Hin]; [exact Hq|]. apply Hall, Hin.
Qed.

Lemma surface_find_from (queueFamilies : list queue_family) (k : nat) (h : bool) :
  snd (WithSurface.find_from queueFamilies k h) =
    h || existsb (fun q => has_graphics (queueFlags q)) queueFamilies /\
  ((exists i q, nth_error queueFamilies i = Some q /\ graphics_present q = true /\
      (forall j q', j < i -> nth_error queueFamilies j = Some q' -> graphics_present q' = false) /\
      fst (WithSurface.find_from queueFamilies k h) = Z.of_nat (k + i))
   \/ ((forall q, In q queueFamilies -> graphics_present q = false) /\
       fst (WithSurface.find_from queueFamilies k h) = UINT32_MAX)).
Proof.
  revert k h. induction queueFamilies as [|q rest IH]; intros k h.
  - split; [cbn; destruct h; reflexivity|]. right. split; [intros q []|reflexivity].
  - cbn [WithSurface.find_from existsb].
    destruct (has_graphics (queueFlags q)) eqn:Hg; [destruct (presentSupport q) eqn:Hp|].
    + split; [destruct h; reflexivity|]. left. exists 0, q.
      split; [reflexivity|]. split; [unfold graphics_present; rewrite Hg, Hp; reflexivity|].
      split; [intros j q' Hj; lia|]. cbn [fst]. f_equal. lia.
    + destruct (IH (S k) true) as [Hs Hf]. split; [rewrite Hs; destruct h; reflexivity|].
      assert (Hq : graphics_present q = false) by (unfold graphics_present; rewrite Hp; apply andb_false_r).
      destruct Hf as [(i & q' & Hi & Hgp & Hmin & Hfst)|(Hall & Hfst)].
      * left. exists (S i), q'. split; [exact Hi|]. split; [exact Hgp|]. split.
        -- intros [|j] q'' Hj Hn; [injection Hn as <-; exact Hq|].
           apply (Hmin j); [lia|exact Hn].
        -- rewrite Hfst. f_equal. lia.
      * right. split; [|exact Hfst].
        intros q' [<-|Hin]; [exact Hq|]. apply Hall, Hin.
    + destruct (IH (S k) h) as [Hs Hf]. split; [exact Hs|].
      assert (Hq : graphics_present q = false) by (unfold graphics_present; rewrite Hg; reflexivity).
      destruct Hf as [(i & q' & Hi & Hgp & Hmin & Hfst)|(Hall & Hfst)].
      * left. exists (S i), q'. split; [exact Hi|]. split; [exact Hgp|]. split.
        -- intros [|j] q'' Hj Hn; [injection Hn as <-; exact Hq|].
           apply (Hmin j); [lia|exact Hn].
        -- rewrite Hfst. f_equal. lia.
      * right. split; [|exact Hfst].
        intros q' [<-|Hin]; [exact Hq|]. apply Hall, Hin.
Qed.

Lemma select_device_spec {D} (F : D -> Z * bool) (devices : list D) (g0 : option Z) :
  match select_device F devices g0 with
  | (Some d, Some q) =>
      (exists pre post, devices = app pre (d :: post) /\ Forall (fun d' => snd (F d') = false) pre) /\
      snd (F d) = true /\ q = fst (F d)
  | (None, q) =>
      Forall (fun d' => snd (F d') = false) devices /\
      (devices <> [] -> exists d', In d' devices /\ q = Some (fst (F d')) /\ snd (F d') = false)
  | (Some _, None) => False
  end.
Proof.
  revert g0. induction devices as [|d rest IH]; intros g0.
  - cbn. split; [constructor|]. intros H; contradiction.
  - cbn [select_device]. destruct (F d) as [idx hasIdx] eqn:Hd. destruct hasIdx.
    + split; [exists [], rest; split; [reflexivity|constructor]|]. rewrite Hd. auto.
    + specialize (IH (Some idx)).
      destruct (select_device F rest (Some idx)) as [[d'|] [q|]] eqn:Hs.
      * destruct IH as ((pre & post & -> & Hpre) & Ht & Hq).
        split; [|auto]. exists (d :: pre), post. split; [reflexivity|].
        constructor; [rewrite Hd; reflexivity|exact Hpre].
      * exact IH.
      * destruct IH as (Hall & Hne). split; [constructor; [rewrite Hd; reflexivity|exact Hall]|].
        intros _. destruct rest as [|d2 rest'].
        -- cbn in Hs. injection Hs as <-. exists d. split; [left; reflexivity|].
           rewrite Hd. auto.
        -- destruct (Hne ltac:(discriminate)) as (d' & Hin & Hq & Hf).
           exists d'. split; [right; exact Hin|]. auto.
      * destruct IH as (Hall & Hne). split; [constructor; [rewrite Hd; reflexivity|exact Hall]|].
        intros _. destruct rest as [|d2 rest'].
        -- cbn in Hs. discriminate.
        -- destruct (Hne ltac:(discriminate)) as (d' & Hin & Hq & Hf). discriminate.
Qed.

(** [Z.land a (1 << n)] tests bit [n] of [a]. *)
Lemma land_shiftl_one (a : Z) (n : Z) : (0 <= n)%Z ->
  Z.eqb (Z.land a (Z.shiftl 1 n)) 0 = negb (Z.testbit a n).
Proof.
  intros Hn. rewrite Z.shiftl_1_l.
  destruct (Z.testbit a n) eqn:Hb; cbn [negb].
  - apply Z.eqb_neq. intros H0.
    assert (Ht : Z.testbit (Z.land a (2 ^ n)) n = false) by (rewrite H0; apply Z.testbit_0_l).
    rewrite Z.land_spec, Z.pow2_bits_true, Hb in Ht by exact Hn. discriminate.
  - apply Z.eqb_eq. apply Z.bits_inj'. intros m Hm.
    rewrite Z.land_spec, Z.testbit_0_l, Z.pow2_bits_eqb by exact Hn.
    destruct (Z.eqb_spec n m) as [<-|]; [rewrite Hb; reflexivity|apply andb_false_r].
Qed.

End DeviceFacts.

Module DeviceExtras.
Import Devices DeviceFacts.

(** X1: the headless [FindQueueFamily] returns the index of the first
    queue family with [VK_QUEUE_GRAPHICS_BIT] and sets [*hasIdx]; when
    no family has it, it returns [UINT32_MAX] with [*hasIdx] false. *)
Theorem FindQueueFamily_headless_spec (queueFamilies : list Z) :
  snd (Headless.FindQueueFamily queueFamilies) = existsb has_graphics queueFamilies /\
  ((exists i q, nth_error queueFamilies i = Some q /\ has_graphics q = true /\
      (forall j q', j < i -> nth_error queueFamilies j = Some q' -> has_graphics q' = false) /\
      fst (Headless.FindQueueFamily queueFamilies) = Z.of_nat i)
   \/ ((forall q, In q queueFamilies -> has_graphics q = false) /\
       fst (Headless.FindQueueFamily queueFamilies) = UINT32_MAX)).
Proof. exact (headless_find_from queueFamilies 0). Qed.

(** X2: the surface [FindQueueFamily] returns the index of the first
    family that has the graphics bit and presentation support, or
    [UINT32_MAX] when there is none; [*hasIdx] is true as soon as some
    family has the graphics bit, whether or not any of them can
    present. *)
Theorem FindQueueFamily_surface_spec (queueFamilies : list queue_family) :
  snd (WithSurface.FindQueueFamily queueFamilies) =
    existsb (fun q => has_graphics (queueFlags q)) queueFamilies /\
  ((exists i q, nth_error queueFamilies i = Some q /\
      has_graphics (queueFlags q) = true /\ presentSupport q = true /\
      (forall j q', j < i -> nth_error queueFamilies j = Some q' ->
         has_graphics (queueFlags q') = false \/ presentSupport q' = false) /\
      fst (WithSurface.FindQueueFamily queueFamilies) = Z.of_nat i)
   \/ ((forall q, In q queueFamilies -> has_graphics (queueFlags q) = true -> presentSupport q = false) /\
       fst (WithSurface.FindQueueFamily queueFamilies) = UINT32_MAX)).
Proof.
  destruct (surface_find_from queueFamilies 0 false) as [Hs Hf].
  split; [exact Hs|]. unfold WithSurface.FindQueueFamily.
  destruct Hf as [(i & q & Hi & Hgp & Hmin & Hfst)|(Hall & Hfst)].
  - left. exists i, q. unfold graphics_present in Hgp. apply andb_true_iff in Hgp as [Hg Hp].
    split; [exact Hi|]. split; [exact Hg|]. split; [exact Hp|]. split; [|exact Hfst].
    intros j q' Hj Hn. specialize (Hmin j q' Hj Hn). unfold graphics_present in Hmin.
    apply andb_false_iff in Hmin. exact Hmin.
  - right. split; [|exact Hfst]. intros q Hin Hg.
    specialize (Hall q Hin). unfold graphics_present in Hall. rewrite Hg in Hall. exact Hall.
Qed.

(** X3: the device selection loop of the surface examples keeps the
    first device that has a graphics queue family, even when none of
    its graphics families supports presentation, in which case
    [graphicsQueueFamilyIdx] is [UINT32_MAX].  When no device has a
    graphics family the loop never assigns [physicalDevice], and
    [graphicsQueueFamilyIdx] is the [UINT32_MAX] of the last device. *)
Theorem select_device_surface (devices : list (list queue_family)) :
  let has_gfx := existsb (fun q => has_graphics (queueFlags q)) in
  match select_device WithSurface.FindQueueFamily devices None with
  | (Some d, Some idx) =>
      (exists pre post, devices = app pre (d :: post) /\ Forall (fun d' => has_gfx d' = false) pre) /\
      has_gfx d = true /\ idx = fst (WithSurface.FindQueueFamily d) /\
      ((forall q, In q d -> has_graphics (queueFlags q) = true -> presentSupport q = false) ->
       idx = UINT32_MAX)
  | (None, idx) =>
      Forall (fun d' => has_gfx d' = false) devices /\
      (devices <> [] -> idx = Some UINT32_MAX)
  | (Some _, None) => False
  end.
Proof.
  cbv zeta.
  pose proof (select_device_spec WithSurface.FindQueueFamily devices None) as H.
  destruct (select_device WithSurface.FindQueueFamily devices None) as [[d|] [idx|]].
  - destruct H as ((pre & post & Hdev & Hpre) & Ht & Hidx).
    split; [exists pre, post; split; [exact Hdev|]|].
    { eapply Forall_impl; [|exact Hpre]. intros d' Hd'.
      rewrite <- (proj1 (FindQueueFamily_surface_spec d')). exact Hd'. }
    split; [rewrite <- (proj1 (FindQueueFamily_surface_spec d)); exact Ht|].
    split; [exact Hidx|]. intros Hnone. rewrite Hidx.
    destruct (proj2 (FindQueueFamily_surface_spec d)) as [(i & q & Hi & Hg & Hp & _)|(_ & Hfst)];
      [|exact Hfst].
    rewrite (Hnone q (nth_error_In _ _ Hi) Hg) in Hp. discriminate.
  - exact H.
  - destruct H as (Hall & Hne). split.
    + eapply Forall_impl; [|exact Hall]. intros d' Hd'.
      rewrite <- (proj1 (FindQueueFamily_surface_spec d')). exact Hd'.
    + intros Hn. destruct (Hne Hn) as (d' & Hin & Hq & Hf). rewrite Hq. f_equal.
      destruct (proj2 (FindQueueFamily_surface_spec d')) as [(i & q & Hi & Hg & _)|(_ & Hfst)];
        [|exact Hfst].
      rewrite (proj1 (FindQueueFamily_surface_spec d')) in Hf.
      assert (Ht : existsb (fun q => has_graphics (queueFlags q)) d' = true)
        by (apply existsb_exists; exists q; split; [exact (nth_error_In _ _ Hi)|exact Hg]).
      congruence.
  - destruct H as (Hall & Hne). split.
    + eapply Forall_impl; [|exact Hall]. intros d' Hd'.
      rewrite <- (proj1 (FindQueueFamily_surface_spec d')). exact Hd'.
    + intros Hn. destruct (Hne Hn) as (d' & _ & Hq & _). discriminate.
Qed.

(** X4: [FindMemoryType] returns the least index [i] below
    [memoryTypeCount] such that bit [i] of [typeFilter] is set and the
    type's [propertyFlags] contain all of [properties]; it throws
    "failed to find suitable memory type!" when there is none. *)
Theorem FindMemoryType_spec (memoryTypes : list Z) (typeFilter properties : Z) :
  let suitable j := Z.testbit typeFilter (Z.of_nat j) &&
                    Z.eqb (Z.land (nth j memoryTypes 0%Z) properties) properties in
  match FindMemoryType memoryTypes typeFilter properties with
  | inr i => exists j, i = Z.of_nat j /\ j < List.length memoryTypes /\ suitable j = true /\
               (forall k, k < j -> suitable k = false)
  | inl msg => msg = "failed to find suitable memory type!" /\
               (forall j, j < List.length memoryTypes -> suitable j = false)
  end.
Proof.
  cbv zeta. unfold FindMemoryType.
  assert (G : forall (l : list Z) (s : nat),
    match find_memory_type l s typeFilter properties with
    | Some i => exists j, i = Z.of_nat (s + j) /\ j < List.length l /\
        Z.testbit typeFilter (Z.of_nat (s + j)) && Z.eqb (Z.land (nth j l 0%Z) properties) properties = true /\
        (forall k, k < j -> Z.testbit typeFilter (Z.of_nat (s + k)) &&
                             Z.eqb (Z.land (nth k l 0%Z) properties) properties = false)
    | None => forall j, j < List.length l ->
        Z.testbit typeFilter (Z.of_nat (s + j)) && Z.eqb (Z.land (nth j l 0%Z) properties) properties = false
    end).
  { induction l as [|f l IH]; intros s; cbn [find_memory_type].
    - intros j Hj. cbn in Hj. lia.
    - rewrite land_shiftl_one by lia. rewrite Bool.negb_involutive.
      destruct (Z.testbit typeFilter (Z.of_nat s) && Z.eqb (Z.land f properties) properties) eqn:Hok.
      + exists 0. rewrite Nat.add_0_r. split; [reflexivity|]. split; [cbn; lia|].
        split; [exact Hok|]. intros k Hk; lia.
      + specialize (IH (S s)).
        destruct (find_memory_type l (S s) typeFilter properties) as [i|].
        * destruct IH as (j & Hi & Hj & Hs & Hmin). exists (S j).
          split; [rewrite Hi; f_equal; lia|]. split; [cbn; lia|].
          split; [replace (s + S j) with (S s + j) by lia; exact Hs|].
          intros [|k] Hk; [rewrite Nat.add_0_r; exact Hok|].
          replace (s + S k) with (S s + k) by lia. apply Hmin. lia.
        * intros [|j] Hj; [rewrite Nat.add_0_r; exact Hok|].
          replace (s + S j) with (S s + j) by lia. apply IH. cbn in Hj. lia. }
  specialize (G memoryTypes 0).
  destruct (find_memory_type memoryTypes 0 typeFilter properties) as [i|].
  - exact G.
  - split; [reflexivity|exact G].
Qed.

(** X13: the swapchain requests [minImageCount + 1] images without
    clamping to [maxImageCount]: on a surface whose maximum is its
    minimum, the request exceeds the maximum. *)
Theorem swapchain_image_count (caps : surface_caps) :
  (0 <= minImageCount caps < UINT32_MAX)%Z ->
  imageCount caps = (minImageCount caps + 1)%Z /\
  (maxImageCount caps <= minImageCount caps -> maxImageCount caps < imageCount caps)%Z.
Proof.
  intros H. unfold imageCount, UINT32_MAX in *.
  rewrite Z.mod_small by lia. split; [reflexivity|lia].
Qed.

Lemma swapchain_image_count_witness :
  (0 <= minImageCount {| minImageCount := 3; maxImageCount := 3; currentExtent := (640, 480) |}
     < UINT32_MAX)%Z /\
  (maxImageCount {| minImageCount := 3; maxImageCount := 3; currentExtent := (640, 480) |} <
   imageCount {| minImageCount := 3; maxImageCount := 3; currentExtent := (640, 480) |})%Z.
Proof.
  assert (H : (0 <= minImageCount {| minImageCount := 3; maxImageCount := 3; currentExtent := (640, 480) |}
     < UINT32_MAX)%Z) by (unfold UINT32_MAX; cbn; lia).
  split; [exact H|].
  apply (proj2 (swapchain_image_count _ H)). cbn; lia.
Defined.

End DeviceExtras.

Module MinInfoFacts.
Import MinInfo.
Local Open Scope Z_scope.

(** Rewriting the bits of [lor], [land], [mod 2^k], [shiftl], [shiftr]
    and [Z.ones] at an index, splitting on the index where needed. *)
Ltac bits_step :=
  match goal with
  | |- context [Z.testbit (Z.lor _ _) _] => rewrite Z.lor_spec
  | |- context [Z.testbit (Z.land _ _) _] => rewrite Z.land_spec
  | |- context [Z.testbit (?a mod 2 ^ ?k) ?i] =>
      first [rewrite (Z.mod_pow2_bits_low a k i) by lia | rewrite (Z.mod_pow2_bits_high a k i) by lia
            | destruct (Z.lt_ge_cases i k)]
  | |- context [Z.testbit (Z.ones ?k) ?i] => rewrite (Z.testbit_ones_nonneg k i) by lia
  | |- context [Z.testbit ?x ?i] => rewrite (Z.testbit_neg_r x i) by lia
  | |- context [Z.testbit (Z.shiftl ?a ?k) ?i] => rewrite (Z.shiftl_spec a k i) by lia
  | |- context [Z.testbit (Z.shiftr ?a ?k) ?i] => rewrite (Z.shiftr_spec a k i) by lia
  | |- context [?i <? ?k] =>
      first [rewrite (proj2 (Z.ltb_lt i k)) by lia | rewrite (proj2 (Z.ltb_ge i k)) by lia
            | destruct (Z.lt_ge_cases i k)]
  | |- context [?i <=? ?k] =>
      first [rewrite (proj2 (Z.leb_le i k)) by lia | rewrite (proj2 (Z.leb_gt i k)) by lia
            | destruct (Z.le_gt_cases i k)]
  end.

Lemma testbit_high (v i : Z) : 0 <= v < 2 ^ 32 -> 32 <= i -> Z.testbit v i = false.
Proof.
  intros H Hi. destruct (Z.eq_dec v 0) as [->|]; [apply Z.testbit_0_l|].
  apply Z.bits_above_log2; [lia|]. apply Z.log2_lt_pow2; [lia|].
  apply Z.lt_le_trans with (2 ^ 32); [lia|]. apply Z.pow_le_mono_r; lia.
Qed.

(** [Z.land a (1 << n)] is [2^n] or [0], by bit [n] of [a]. *)
Lemma land_pow2 (a n : Z) : 0 <= n ->
  Z.land a (Z.shiftl 1 n) = if Z.testbit a n then 2 ^ n else 0.
Proof.
  intros Hn. rewrite Z.shiftl_1_l. apply Z.bits_inj'. intros m Hm.
  rewrite Z.land_spec, Z.pow2_bits_eqb by exact Hn.
  destruct (Z.testbit a n) eqn:Hb.
  - rewrite Z.pow2_bits_eqb by exact Hn.
    destruct (Z.eqb_spec n m) as [<-|]; [rewrite Hb; reflexivity|apply andb_false_r].
  - rewrite Z.testbit_0_l. destruct (Z.eqb_spec n m) as [<-|]; [rewrite Hb; reflexivity|apply andb_false_r].
Qed.

Lemma flag_lines_in (flags : Z) (s n : nat) (f : Z) :
  In f (flag_lines flags s n) ->
  exists t, (s <= t < s + n)%nat /\ f = 2 ^ Z.of_nat t /\ Z.testbit flags (Z.of_nat t) = true.
Proof.
  revert s. induction n as [|n IH]; intros s Hin; [contradiction|].
  cbn [flag_lines] in Hin. rewrite land_pow2 in Hin by lia.
  destruct (Z.testbit flags (Z.of_nat s)) eqn:Hb.
  - assert (Hnz : Z.eqb (2 ^ Z.of_nat s) 0 = false)
      by (apply Z.eqb_neq; apply Z.pow_nonzero; lia).
    rewrite Hnz in Hin. cbn in Hin. destruct Hin as [<-|Hin].
    + exists s. split; [lia|]. auto.
    + destruct (IH (S s) Hin) as (t & Ht & Hf & Htb). exists t. split; [lia|]. auto.
  - cbn in Hin. destruct (IH (S s) Hin) as (t & Ht & Hf & Htb). exists t. split; [lia|]. auto.
Qed.

Lemma flag_lines_complete (flags : Z) (s n t : nat) :
  (s <= t < s + n)%nat -> Z.testbit flags (Z.of_nat t) = true ->
  In (2 ^ Z.of_nat t) (flag_lines flags s n).
Proof.
  revert s. induction n as [|n IH]; intros s Ht Hb; [lia|].
  cbn [flag_lines]. rewrite land_pow2 by lia. apply in_or_app.
  destruct (Nat.eq_dec s t) as [->|Hne].
  - left. rewrite Hb.
    replace (Z.eqb (2 ^ Z.of_nat t) 0) with false
      by (symmetry; apply Z.eqb_neq; apply Z.pow_nonzero; lia).
    left. reflexivity.
  - right. apply IH; [lia|exact Hb].
Qed.

Lemma flag_lines_sorted (flags : Z) (s n : nat) :
  StronglySorted Z.lt (flag_lines flags s n).
Proof.
  revert s. induction n as [|n IH]; intros s; [constructor|].
  cbn [flag_lines]. rewrite land_pow2 by lia.
  destruct (Z.testbit flags (Z.of_nat s)).
  - replace (Z.eqb (2 ^ Z.of_nat s) 0) with false
      by (symmetry; apply Z.eqb_neq; apply Z.pow_nonzero; lia).
    cbn [negb app]. constructor; [apply IH|].
    apply Forall_forall. intros f Hin.
    destruct (flag_lines_in flags (S s) n f Hin) as (t & Ht & -> & _).
    apply Z.pow_lt_mono_r; lia.
  - cbn [negb Z.eqb app]. apply IH.
Qed.

Lemma flag_lines_lor (flags : Z) (s n : nat) (m : Z) : 0 <= m ->
  Z.testbit (fold_right Z.lor 0 (flag_lines flags s n)) m =
  ((Z.of_nat s <=? m) && (m <? Z.of_nat (s + n)) && Z.testbit flags m)%bool.
Proof.
  intros Hm. revert s. induction n as [|n IH]; intros s.
  - cbn [flag_lines fold_right]. rewrite Z.testbit_0_l.
    destruct (Z.leb_spec (Z.of_nat s) m), (Z.ltb_spec m (Z.of_nat (s + 0))); cbn; try reflexivity; lia.
  - cbn [flag_lines]. rewrite land_pow2 by lia. rewrite fold_right_app.
    assert (Hrest := IH (S s)).
    destruct (Z.testbit flags (Z.of_nat s)) eqn:Hb.
    + replace (Z.eqb (2 ^ Z.of_nat s) 0) with false
        by (symmetry; apply Z.eqb_neq; apply Z.pow_nonzero; lia).
      cbn [negb fold_right]. rewrite Z.lor_spec, Hrest.
      rewrite Z.pow2_bits_eqb by lia.
      destruct (Z.eqb_spec (Z.of_nat s) m) as [<-|Hne].
      * rewrite Hb. destruct (Z.leb_spec (Z.of_nat s) (Z.of_nat s)),
          (Z.ltb_spec (Z.of_nat s) (Z.of_nat (s + S n))); cbn; try reflexivity; lia.
      * cbn [orb]. destruct (Z.leb_spec (Z.of_nat (S s)) m), (Z.ltb_spec m (Z.of_nat (S s + n))),
          (Z.leb_spec (Z.of_nat s) m), (Z.ltb_spec m (Z.of_nat (s + S n))); cbn; try reflexivity; lia.
    + cbn [negb Z.eqb fold_right]. rewrite Hrest.
      destruct (Z.eqb_spec (Z.of_nat s) m) as [<-|Hne].
      * rewrite Hb. rewrite !andb_false_r. reflexivity.
      * destruct (Z.leb_spec (Z.of_nat (S s)) m), (Z.ltb_spec m (Z.of_nat (S s + n))),
          (Z.leb_spec (Z.of_nat s) m), (Z.ltb_spec m (Z.of_nat (s + S n))); cbn; try reflexivity; lia.
Qed.

Lemma strnlen_le (s : string) (n : nat) : (strnlen s n <= n)%nat.
Proof.
  revert s. induction n as [|n IH]; intros s; [destruct s; cbn; lia|].
  destruct s as [|c s']; cbn [strnlen]; [lia|]. destruct (Ascii.eqb c Ascii.zero); [lia|].
  specialize (IH s'). lia.
Qed.

Lemma maxWidth_fold (names : list string) (v : nat) :
  let w := fold_left (fun value name => Nat.max value (strnlen name 256)) names v in
  (v <= w)%nat /\ (forall n, In n names -> (strnlen n 256 <= w)%nat) /\
  (w = v \/ exists n, In n names /\ w = strnlen n 256).
Proof.
  revert v. induction names as [|n0 names IH]; intros v; cbv zeta.
  - cbn. split; [lia|]. split; [intros n []|]. left; reflexivity.
  - cbn [fold_left]. destruct (IH (Nat.max v (strnlen n0 256))) as (Hge & Hall & Hw).
    split; [lia|]. split.
    + intros n [<-|Hin]; [lia|]. apply Hall, Hin.
    + destruct Hw as [Hw|(n & Hin & Hw)].
      * rewrite Hw. destruct (Nat.max_spec v (strnlen n0 256)) as [(_ & ->)|(_ & ->)].
        -- right. exists n0. split; [left|]; reflexivity.
        -- left; reflexivity.
      * right. exists n. split; [right; exact Hin|exact Hw].
Qed.

End MinInfoFacts.

Module MinInfoExtras.
Import MinInfo MinInfoFacts.

(** X5: [GetVersionInfo] decodes what [VK_MAKE_API_VERSION] encodes:
    for a variant below 8, a major below 128, a minor below 1024 and a
    patch below 4096 the four fields come back unchanged. *)
Theorem GetVersionInfo_make (v mj mn p : Z) :
  (0 <= v < 8)%Z -> (0 <= mj < 128)%Z -> (0 <= mn < 1024)%Z -> (0 <= p < 4096)%Z ->
  GetVersionInfo (VK_MAKE_API_VERSION v mj mn p) =
    {| variant := v; major := mj; minor := mn; patch := p |}.
Proof.
  intros Hv Hmj Hmn Hp. unfold GetVersionInfo, VK_MAKE_API_VERSION, u32.
  rewrite (Z.mod_small v), (Z.mod_small mj), (Z.mod_small mn), (Z.mod_small p) by lia.
  change 127%Z with (Z.ones 7). change 1023%Z with (Z.ones 10). change 4095%Z with (Z.ones 12).
  assert (Bv : forall i, (3 <= i)%Z -> Z.testbit v i = false).
  { intros i Hi. apply Z.bits_above_log2; [lia|].
    destruct (Z.eq_dec v 0) as [->|]; [cbn; lia|].
    apply Z.log2_lt_pow2; [lia|]. apply Z.lt_le_trans with (2 ^ 3)%Z; [lia|].
    apply Z.pow_le_mono_r; lia. }
  assert (Bmj : forall i, (7 <= i)%Z -> Z.testbit mj i = false).
  { intros i Hi. apply Z.bits_above_log2; [lia|].
    destruct (Z.eq_dec mj 0) as [->|]; [cbn; lia|].
    apply Z.log2_lt_pow2; [lia|]. apply Z.lt_le_trans with (2 ^ 7)%Z; [lia|].
    apply Z.pow_le_mono_r; lia. }
  assert (Bmn : forall i, (10 <= i)%Z -> Z.testbit mn i = false).
  { intros i Hi. apply Z.bits_above_log2; [lia|].
    destruct (Z.eq_dec mn 0) as [->|]; [cbn; lia|].
    apply Z.log2_lt_pow2; [lia|]. apply Z.lt_le_trans with (2 ^ 10)%Z; [lia|].
    apply Z.pow_le_mono_r; lia. }
  assert (Bp : forall i, (12 <= i)%Z -> Z.testbit p i = false).
  { intros i Hi. apply Z.bits_above_log2; [lia|].
    destruct (Z.eq_dec p 0) as [->|]; [cbn; lia|].
    apply Z.log2_lt_pow2; [lia|]. apply Z.lt_le_trans with (2 ^ 12)%Z; [lia|].
    apply Z.pow_le_mono_r; lia. }
  f_equal; apply Z.bits_inj'; intros n Hn; repeat bits_step;
    rewrite ?Z.sub_add, ?Z.add_simpl_r;
    repeat match goal with
    | |- context [Z.testbit v ?i] => rewrite (Bv i) by lia
    | |- context [Z.testbit mj ?i] => rewrite (Bmj i) by lia
    | |- context [Z.testbit mn ?i] => rewrite (Bmn i) by lia
    | |- context [Z.testbit p ?i] => rewrite (Bp i) by lia
    | |- context [Z.testbit ?x ?i] => progress replace i with n by lia
    end; try btauto.
Qed.

Lemma GetVersionInfo_make_witness :
  GetVersionInfo (VK_MAKE_API_VERSION 0 1 3 250) =
    {| variant := 0; major := 1; minor := 3; patch := 250 |}.
Proof. apply GetVersionInfo_make; lia. Defined.

(** X6: re-encoding the four fields [GetVersionInfo] extracts gives back
    any 32-bit version number. *)
Theorem make_GetVersionInfo (encodedVersion : Z) :
  (0 <= encodedVersion < 2 ^ 32)%Z ->
  VK_MAKE_API_VERSION (variant (GetVersionInfo encodedVersion)) (major (GetVersionInfo encodedVersion))
    (minor (GetVersionInfo encodedVersion)) (patch (GetVersionInfo encodedVersion)) = encodedVersion.
Proof.
  intros H. unfold GetVersionInfo, VK_MAKE_API_VERSION, u32. cbn [variant major minor patch].
  rewrite (Z.mod_small encodedVersion) by lia.
  change 127%Z with (Z.ones 7). change 1023%Z with (Z.ones 10). change 4095%Z with (Z.ones 12).
  apply Z.bits_inj'; intros n Hn.
  assert (R : (n < 12 \/ 12 <= n < 22 \/ 22 <= n < 29 \/ 29 <= n < 32 \/ 32 <= n)%Z) by lia.
  destruct R as [R|[R|[R|[R|R]]]]; repeat bits_step;
    rewrite ?Z.sub_add; try (rewrite (testbit_high encodedVersion) by lia);
    repeat match goal with
    | |- context [Z.testbit encodedVersion ?i] => progress replace i with n by lia
    end; try btauto.
Qed.

Lemma make_GetVersionInfo_witness :
  VK_MAKE_API_VERSION (variant (GetVersionInfo 4206842)) (major (GetVersionInfo 4206842))
    (minor (GetVersionInfo 4206842)) (patch (GetVersionInfo 4206842)) = 4206842%Z.
Proof. apply make_GetVersionInfo; lia. Defined.

(** X9: the flag lines [DumpPhysicalDeviceInfos] prints for a 32-bit
    [propertyFlags] (and heap [flags]) are the powers of two of its set
    bits, each once and in increasing order, and together they OR back
    to the flags. *)
Theorem listed_flags_spec (flags : Z) :
  (0 <= flags < 2 ^ 32)%Z ->
  fold_right Z.lor 0%Z (listed_flags flags) = flags /\
  (forall f, In f (listed_flags flags) ->
     exists s, (s < 32)%nat /\ f = (2 ^ Z.of_nat s)%Z /\ Z.testbit flags (Z.of_nat s) = true) /\
  (forall s, (s < 32)%nat -> Z.testbit flags (Z.of_nat s) = true ->
     In (2 ^ Z.of_nat s)%Z (listed_flags flags)) /\
  StronglySorted Z.lt (listed_flags flags).
Proof.
  intros H. unfold listed_flags. split; [|split; [|split]].
  - apply Z.bits_inj'. intros m Hm. rewrite flag_lines_lor by exact Hm.
    change (Z.of_nat (0 + 32)) with 32%Z. change (Z.of_nat 0) with 0%Z.
    destruct (Z.leb_spec 0 m); [|lia]. destruct (Z.ltb_spec m 32).
    + reflexivity.
    + rewrite testbit_high by lia. reflexivity.
  - intros f Hin. destruct (flag_lines_in flags 0 32 f Hin) as (t & Ht & Hf & Hb).
    exists t. split; [lia|]. auto.
  - intros s Hs Hb. apply flag_lines_complete; [lia|exact Hb].
  - apply flag_lines_sorted.
Qed.

Lemma listed_flags_spec_witness :
  fold_right Z.lor 0%Z (listed_flags 11) = 11%Z /\ listed_flags 11 = [1; 2; 8]%Z.
Proof.
  split.
  - apply (proj1 (listed_flags_spec 11 ltac:(lia))).
  - vm_compute. reflexivity.
Defined.

(** X8: the column width [DumpExtensions] and [DumpLayers] compute is
    the largest of 10 and the names' lengths (at most 256); every name
    fits in it, the [%*s] field width [-maxWidth - 2] is read by
    [printf] as the negative [-(maxWidth + 2)] (left-justified), and the
    description's [maxWidth - 10] does not wrap around. *)
Theorem maxWidth_spec (names : list string) :
  let w := maxWidth names in
  (10 <= w <= 256)%nat /\
  (forall n, In n names -> (strnlen n 256 <= w)%nat) /\
  (w = 10%nat \/ exists n, In n names /\ w = strnlen n 256) /\
  name_field w = (- (Z.of_nat w + 2))%Z /\
  description_field w = (Z.of_nat w - 10)%Z.
Proof.
  cbv zeta. unfold maxWidth.
  destruct (maxWidth_fold names 10) as (Hge & Hall & Hw). cbv zeta in *.
  set (w := fold_left (fun value name => Nat.max value (strnlen name 256)) names 10%nat) in *.
  assert (Hle : (w <= 256)%nat).
  { destruct Hw as [->|(n & _ & ->)]; [lia|apply strnlen_le]. }
  split; [lia|]. split; [exact Hall|]. split; [exact Hw|]. split.
  - unfold name_field, int_arg.
    replace ((- Z.of_nat w - 2) mod 2 ^ 32)%Z with (2 ^ 32 - (Z.of_nat w + 2))%Z.
    + destruct (Z.ltb_spec (2 ^ 32 - (Z.of_nat w + 2)) (2 ^ 31)); lia.
    + apply Z.mod_unique with (-1)%Z; lia.
  - unfold description_field, int_arg.
    rewrite Z.mod_small by lia.
    destruct (Z.ltb_spec (Z.of_nat w - 10) (2 ^ 31)); lia.
Qed.

(** X7: [QueryWithMethod] returns an empty vector when either query
    fails; otherwise a vector of the size the first query reported,
    whose elements are those the second query wrote, value-initialised
    past them (when the second query writes fewer). *)
Theorem QueryWithMethod_spec {P} (zero : P) (queryWith : option nat -> FrameLoop.VkResult * nat * list P)
  (res1 res2 : FrameLoop.VkResult) (count count2 : nat) (items0 items : list P) :
  queryWith None = (res1, count, items0) ->
  queryWith (Some count) = (res2, count2, items) ->
  (FrameLoop.is_success res1 = false \/ FrameLoop.is_success res2 = false ->
     QueryWithMethod zero queryWith = []) /\
  (FrameLoop.is_success res1 = true -> FrameLoop.is_success res2 = true ->
     List.length (QueryWithMethod zero queryWith) = count /\
     (forall i, (i < count)%nat -> nth i (QueryWithMethod zero queryWith) zero = nth i items zero)).
Proof.
  intros H1 H2. unfold QueryWithMethod. rewrite H1.
  assert (Ov : forall (v its : list P), List.length (overwrite v its) = List.length v /\
            forall i, (i < List.length v)%nat -> nth i (overwrite v its) zero = nth i its (nth i v zero)).
  { induction v as [|x v IH]; intros its; [split; [reflexivity|intros i Hi; cbn in Hi; lia]|].
    destruct its as [|it its].
    - split; [reflexivity|]. intros [|i] _; reflexivity.
    - cbn [overwrite List.length]. destruct (IH its) as [Hl Hn]. split; [rewrite Hl; reflexivity|].
      intros [|i] Hi; [reflexivity|]. cbn. apply Hn. lia. }
  split.
  - intros [Hf|Hf].
    + rewrite Hf. reflexivity.
    + destruct (FrameLoop.is_success res1); [|reflexivity]. cbn [negb]. rewrite H2, Hf. reflexivity.
  - intros Hs1 Hs2. rewrite Hs1. cbn [negb]. rewrite H2, Hs2. cbn [negb].
    destruct (Ov (repeat zero count) items) as [Hl Hn]. rewrite repeat_length in Hl.
    split; [exact Hl|]. intros i Hi. rewrite Hn by (rewrite repeat_length; exact Hi).
    rewrite nth_repeat. reflexivity.
Qed.

Lemma QueryWithMethod_spec_witness :
  List.length (QueryWithMethod 0%nat
    (fun cap => match cap with
                | None => (FrameLoop.VK_SUCCESS, 3%nat, [])
                | Some _ => (FrameLoop.VK_SUCCESS, 2%nat, [7%nat; 8%nat])
                end)) = 3%nat.
Proof.
  refine (proj1 (proj2 (QueryWithMethod_spec 0%nat
    (fun cap => match cap with
                | None => (FrameLoop.VK_SUCCESS, 3%nat, [])
                | Some _ => (FrameLoop.VK_SUCCESS, 2%nat, [7%nat; 8%nat])
                end) FrameLoop.VK_SUCCESS FrameLoop.VK_SUCCESS 3 2 [] [7%nat; 8%nat]
    eq_refl eq_refl) eq_refl eq_refl)).
Defined.

End MinInfoExtras.

Module ComputeFacts.
Import Ppm PpmFacts ComputeSource MinInfoFacts.
Local Open Scope Z_scope.

Lemma testbit_small (v n i : Z) : 0 <= n -> 0 <= v < 2 ^ n -> n <= i -> Z.testbit v i = false.
Proof.
  intros Hn H Hi. destruct (Z.eq_dec v 0) as [->|]; [apply Z.testbit_0_l|].
  apply Z.bits_above_log2; [lia|]. apply Z.log2_lt_pow2; [lia|].
  apply Z.lt_le_trans with (2 ^ n); [lia|]. apply Z.pow_le_mono_r; lia.
Qed.

Lemma byte_of_Z_mod (z1 z2 : Z) : z1 mod 256 = z2 mod 256 -> byte_of_Z z1 = byte_of_Z z2.
Proof. intros H. unfold byte_of_Z. rewrite H. reflexivity. Qed.

Lemma red_range (a b : Z) : 0 <= red a b < 2 ^ 8.
Proof. unfold red. change (2 ^ 8) with 256. apply Z.mod_pos_bound. lia. Qed.

(** The four bytes of a stored pixel. *)
Lemma pixel_bytes (a b : Z) : 0 <= a < 2 ^ 8 -> 0 <= b < 2 ^ 8 ->
  pixel a b mod 2 ^ 8 = red a b /\ Z.shiftr (pixel a b) 8 mod 2 ^ 8 = a /\
  Z.shiftr (pixel a b) 16 mod 2 ^ 8 = b /\ Z.shiftr (pixel a b) 24 mod 2 ^ 8 = 255.
Proof.
  intros Ha Hb. pose proof (red_range a b) as Hr. unfold pixel. revert Hr.
  generalize (red a b) as R. intros R HR.
  split; [|split; [|split]]; apply Z.bits_inj'; intros n Hn; repeat bits_step;
    rewrite ?Z.sub_add, ?Z.add_simpl_r;
    repeat match goal with
    | |- context [Z.testbit a ?i] => rewrite (testbit_small a 8 i) by lia
    | |- context [Z.testbit b ?i] => rewrite (testbit_small b 8 i) by lia
    | |- context [Z.testbit R ?i] => rewrite (testbit_small R 8 i) by lia
    | |- context [Z.testbit 255 ?i] => rewrite (testbit_small 255 8 i) by lia
    | |- context [Z.testbit ?x ?i] => progress replace i with n by lia
    end; try btauto.
Qed.

Lemma store32_spec (m : Mem) (i : nat) (v : Z) (p : nat) :
  store32 m i v p =
  if Nat.eqb (p / 4) i then byte_of_Z (Z.shiftr v (8 * Z.of_nat (p mod 4))) else m p.
Proof. reflexivity. Qed.

Lemma fill_y_spec (m : Mem) (x y n : nat) (p : nat) :
  (y + n <= 256)%nat ->
  fill_y m x y n p =
  if ((x * 256 + y <=? p / 4) && (p / 4 <? x * 256 + y + n))%nat then pix_byte p else m p.
Proof.
  revert m y. induction n as [|n IH]; intros m y Hn.
  - cbn [fill_y]. destruct (Nat.leb_spec (x * 256 + y) (p / 4)), (Nat.ltb_spec (p / 4) (x * 256 + y + 0));
      cbn; try reflexivity; lia.
  - cbn [fill_y]. rewrite IH by lia. rewrite store32_spec.
    destruct (Nat.eqb_spec (p / 4) (x * 256 + y)) as [Hp|Hp].
    + replace ((x * 256 + S y <=? p / 4) && (p / 4 <? x * 256 + S y + n))%nat with false
        by (destruct (Nat.leb_spec (x * 256 + S y) (p / 4)); cbn; [lia|reflexivity]).
      replace ((x * 256 + y <=? p / 4) && (p / 4 <? x * 256 + y + S n))%nat with true
        by (destruct (Nat.leb_spec (x * 256 + y) (p / 4)), (Nat.ltb_spec (p / 4) (x * 256 + y + S n));
            cbn; [reflexivity|lia..]).
      unfold pix_byte. rewrite Hp.
      replace ((x * 256 + y) / 256)%nat with x
        by (apply Nat.div_unique with y; lia).
      replace ((x * 256 + y) mod 256)%nat with y
        by (apply Nat.mod_unique with x; lia).
      reflexivity.
    + destruct (Nat.leb_spec (x * 256 + S y) (p / 4)), (Nat.ltb_spec (p / 4) (x * 256 + S y + n)),
        (Nat.leb_spec (x * 256 + y) (p / 4)), (Nat.ltb_spec (p / 4) (x * 256 + y + S n));
        cbn; try reflexivity; lia.
Qed.

Lemma fill_x_spec (m : Mem) (x n : nat) (p : nat) :
  fill_x m x n p =
  if ((x * 256 <=? p / 4) && (p / 4 <? (x + n) * 256))%nat then pix_byte p else m p.
Proof.
  revert m x. induction n as [|n IH]; intros m x.
  - cbn [fill_x]. destruct (Nat.leb_spec (x * 256) (p / 4)), (Nat.ltb_spec (p / 4) ((x + 0) * 256));
      cbn; try reflexivity; lia.
  - cbn [fill_x]. rewrite IH, fill_y_spec by lia.
    destruct (Nat.leb_spec (S x * 256) (p / 4)), (Nat.ltb_spec (p / 4) ((S x + n) * 256)),
      (Nat.leb_spec (x * 256 + 0) (p / 4)), (Nat.ltb_spec (p / 4) (x * 256 + 0 + 256)),
      (Nat.leb_spec (x * 256) (p / 4)), (Nat.ltb_spec (p / 4) ((x + S n) * 256));
      cbn; try reflexivity; lia.
Qed.

(** A tightly described memory dumps to the PPM of its image. *)
Lemma dump_layout (img : Image) (rowPitch w h : nat) (data : Mem) :
  linear_layout R8G8B8A8 img rowPitch w h data -> dump data rowPitch w h = spec_ppm img w h.
Proof.
  intros H. unfold dump, spec_ppm. rewrite <- fmt_rows_rgb.
  rewrite <- (write_rows_layout R8G8B8A8 img rowPitch w h data H 0 h) by lia.
  reflexivity.
Qed.

(** The filled memory holds the texels of [source_image], tightly
    packed, in [R8G8B8A8] order. *)
Lemma fill_layout (m : Mem) : linear_layout R8G8B8A8 source_image 1024 256 256 (fill m).
Proof.
  intros col row k Hc Hr Hk. unfold fill. rewrite fill_x_spec.
  set (p := (row * 1024 + 4 * col + k)%nat).
  assert (Hp4 : (p / 4 = row * 256 + col)%nat) by (symmetry; apply Nat.div_unique with k; lia).
  assert (Hpm : (p mod 4 = k)%nat) by (symmetry; apply Nat.mod_unique with (row * 256 + col)%nat; lia).
  rewrite Hp4.
  replace ((0 * 256 <=? row * 256 + col) && (row * 256 + col <? (0 + 256) * 256))%nat with true
    by (destruct (Nat.leb_spec (0 * 256) (row * 256 + col)), (Nat.ltb_spec (row * 256 + col) ((0 + 256) * 256));
        cbn; [reflexivity|lia..]).
  unfold pix_byte. rewrite Hp4, Hpm.
  replace ((row * 256 + col) / 256)%nat with row by (apply Nat.div_unique with col; lia).
  replace ((row * 256 + col) mod 256)%nat with col by (apply Nat.mod_unique with row; lia).
  destruct (pixel_bytes (Z.of_nat row) (Z.of_nat col) ltac:(cbn; lia) ltac:(cbn; lia))
    as (B0 & B1 & B2 & B3).
  change (2 ^ 8) with 256 in B0, B1, B2, B3.
  unfold source_image, texel_bytes.
  destruct k as [|[|[|[|k]]]]; [..|lia]; cbn [nth r g b a].
  - apply byte_of_Z_mod. rewrite Z.mul_0_r, Z.shiftr_0_r, B0. symmetry. apply Z.mod_small. apply red_range.
  - apply byte_of_Z_mod. change (8 * Z.of_nat 1) with 8. rewrite B1. symmetry. apply Z.mod_small. lia.
  - apply byte_of_Z_mod. change (8 * Z.of_nat 2) with 16. rewrite B2. symmetry. apply Z.mod_small. lia.
  - transitivity (byte_of_Z 255); [|reflexivity].
    apply byte_of_Z_mod. change (8 * Z.of_nat 3) with 24. rewrite B3. reflexivity.
Qed.

End ComputeFacts.

Module ComputeExtras.
Import Ppm ComputeSource ComputeFacts.

(** X10: when the driver lays out the linear [sourceImage] tightly
    ([subResourceLayout.offset = 0], [rowPitch = 1024]), the "src.ppm"
    file [DumpImage] writes after the fill loop is the PPM of the
    checkerboard: texel (col, row) has red [255] where bit 3 of the row
    and of the column differ, green the row and blue the column. *)
Theorem source_dump (m : Mem) (offset rowPitch : nat) :
  offset = 0%nat -> rowPitch = 1024%nat ->
  dump (fun p => fill m (offset + p)) rowPitch 256 256 = spec_ppm source_image 256 256.
Proof.
  intros -> ->. apply dump_layout. intros col row k Hc Hr Hk. apply fill_layout; assumption.
Qed.

Lemma source_dump_witness :
  dump (fun p => fill (fun _ => Byte.x00) (0 + p)) 1024 256 256 = spec_ppm source_image 256 256.
Proof. apply (source_dump (fun _ => Byte.x00) 0 1024); reflexivity. Defined.

End ComputeExtras.

Module DispatchExtras.
Import QArith ComputeSource.

(** X11: the dispatch of [256 / 16] by [256 / 16] work groups of 16 by
    16 invocations writes every pixel of the 256 by 256 output image
    exactly once: for each pixel one work group and local invocation
    store there the inverted input texel. *)
Theorem dispatch_covers_image (load : Z * Z -> Glsl.vec4) (px py : nat) :
  (px < 256)%nat -> (py < 256)%nat ->
  exists! ids : (nat * nat) * (nat * nat),
    in_dispatch (fst (fst ids)) (fst (snd ids)) /\ in_dispatch (snd (fst ids)) (snd (snd ids)) /\
    Invert.invocation load (256, 256)%Z
      (global_id (fst (fst ids)) (fst (snd ids)), global_id (snd (fst ids)) (snd (snd ids))) =
    Some {| Invert.coord := (Z.of_nat px, Z.of_nat py);
            Invert.value := Glsl.mkvec4 (1 - Glsl.x (load (Z.of_nat px, Z.of_nat py)))%Q
                                        (1 - Glsl.y (load (Z.of_nat px, Z.of_nat py)))%Q
                                        (1 - Glsl.z (load (Z.of_nat px, Z.of_nat py)))%Q 1%Q |}.
Proof.
  intros Hx Hy.
  assert (Small : forall u, (u < 256)%nat -> Invert.int_of_uint u = Z.of_nat u).
  { intros u Hu. unfold Invert.int_of_uint. rewrite Z.mod_small by lia.
    destruct (Z.ltb_spec (Z.of_nat u) (2 ^ 31)); [reflexivity|lia]. }
  exists ((px / 16, py / 16)%nat, (px mod 16, py mod 16)%nat). cbn [fst snd]. split.
  - unfold in_dispatch, global_id.
    assert (Ex : (px / 16 * 16 + px mod 16 = px)%nat) by (rewrite Nat.mul_comm; symmetry; apply Nat.div_mod; lia).
    assert (Ey : (py / 16 * 16 + py mod 16 = py)%nat) by (rewrite Nat.mul_comm; symmetry; apply Nat.div_mod; lia).
    split; [split; [apply Nat.Div0.div_lt_upper_bound; cbn; lia|apply Nat.mod_upper_bound; lia]|].
    split; [split; [apply Nat.Div0.div_lt_upper_bound; cbn; lia|apply Nat.mod_upper_bound; lia]|].
    cbn [fst snd]. rewrite Ex, Ey. unfold Invert.invocation. cbn [fst snd]. rewrite !Small by lia.
    destruct (Z.ltb_spec (Z.of_nat px) 256), (Z.ltb_spec (Z.of_nat py) 256); try lia. reflexivity.
  - intros [[wx wy] [lx ly]]. cbn [fst snd]. intros ((Hwx & Hlx) & (Hwy & Hly) & Hinv).
    change (256 / 16)%nat with 16%nat in Hwx, Hwy.
    unfold Invert.invocation, global_id in Hinv. cbn [fst snd] in Hinv.
    rewrite !Small in Hinv by lia.
    destruct ((Z.of_nat (wx * 16 + lx) <? 256)%Z && (Z.of_nat (wy * 16 + ly) <? 256)%Z); [|discriminate].
    apply (f_equal (option_map Invert.coord)) in Hinv. cbn [option_map Invert.coord] in Hinv.
    injection Hinv as Hx' Hy'. apply Nat2Z.inj in Hx', Hy'.
    f_equal; f_equal; symmetry.
    + apply Nat.div_unique with lx; lia.
    + apply Nat.div_unique with ly; lia.
    + apply Nat.mod_unique with wx; lia.
    + apply Nat.mod_unique with wy; lia.
Qed.

Lemma dispatch_covers_image_witness :
  exists! ids : (nat * nat) * (nat * nat),
    in_dispatch (fst (fst ids)) (fst (snd ids)) /\ in_dispatch (snd (fst ids)) (snd (snd ids)) /\
    Invert.invocation (fun _ => Glsl.mkvec4 0 0 0 0) (256, 256)%Z
      (global_id (fst (fst ids)) (fst (snd ids)), global_id (snd (fst ids)) (snd (snd ids))) =
    Some {| Invert.coord := (Z.of_nat 37, Z.of_nat 200);
            Invert.value := Glsl.mkvec4 (1 - Glsl.x (Glsl.mkvec4 0 0 0 0))%Q
                                        (1 - Glsl.y (Glsl.mkvec4 0 0 0 0))%Q
                                        (1 - Glsl.z (Glsl.mkvec4 0 0 0 0))%Q 1%Q |}.
Proof. apply (dispatch_covers_image (fun _ => Glsl.mkvec4 0 0 0 0) 37 200); lia. Defined.

End DispatchExtras.

Module UniformExtras.
Import QArith Glsl SubpassUniform.

Lemma rotate4_colors (l : list Q) (i : nat) :
  List.length l = 12%nat -> (i < 3)%nat ->
  List.length (rotate4 l) = 12%nat /\ colors (rotate4 l) i = colors l ((i + 1) mod 3).
Proof.
  intros Hl Hi.
  destruct l as [|a0 [|a1 [|a2 [|a3 [|a4 [|a5 [|a6 [|a7 [|a8 [|a9 [|a10 [|a11 [|a12 l]]]]]]]]]]]]];
    cbn in Hl; try discriminate.
  split; [reflexivity|].
  destruct i as [|[|[|i]]]; [reflexivity..|lia].
Qed.

(** X12: after [k] passes through the draw loop's
    [std::rotate(begin, begin + 4, end)], color [i] of the uniform
    buffer is color [(i + k) mod 3] of the initial data; after three
    passes the buffer is back to its initial contents. *)
Theorem uniform_rotation (l : list Q) (k i : nat) :
  List.length l = 12%nat -> (i < 3)%nat ->
  colors (Nat.iter k rotate4 l) i = colors l ((i + k) mod 3) /\
  Nat.iter 3 rotate4 l = l.
Proof.
  intros Hl Hi. split.
  - assert (G : forall k, List.length (Nat.iter k rotate4 l) = 12%nat /\
                forall i, (i < 3)%nat -> colors (Nat.iter k rotate4 l) i = colors l ((i + k) mod 3)).
    { induction k0 as [|k0 [IHl IHc]].
      - split; [exact Hl|]. intros i0 Hi0. change (Nat.iter 0 rotate4 l) with l. rewrite Nat.add_0_r, Nat.mod_small by exact Hi0.
        reflexivity.
      - change (Nat.iter (S k0) rotate4 l) with (rotate4 (Nat.iter k0 rotate4 l)). split; [apply (rotate4_colors _ 0 IHl); lia|].
        intros i0 Hi0. rewrite (proj2 (rotate4_colors _ i0 IHl Hi0)).
        rewrite IHc by (apply Nat.mod_upper_bound; lia).
        f_equal. rewrite Nat.Div0.add_mod_idemp_l. f_equal. lia. }
    apply (proj2 (G k)), Hi.
  - destruct l as [|a0 [|a1 [|a2 [|a3 [|a4 [|a5 [|a6 [|a7 [|a8 [|a9 [|a10 [|a11 [|a12 l]]]]]]]]]]]]];
      cbn in Hl; try discriminate.
    reflexivity.
Qed.

Lemma uniform_rotation_witness :
  colors (uniform_after 4) 0 = colors uniformData 1 /\ uniform_after 3 = uniformData.
Proof. apply (uniform_rotation uniformData 4 0); [reflexivity|lia]. Defined.

End UniformExtras.

Module ShaderExtras.
Import Spirv FrameLoop Shader SpirvFacts.

(** X14: [BuildShader] (without shaderc) yields a create info exactly
    when [filename + ".spv"] opens, its size is a nonzero multiple of 4
    and [vkCreateShaderModule] succeeds; [codeSize] is then the file
    size in bytes and [pCode] holds the file's bytes.  An empty file
    passes [LoadSPIRV] and is refused with "failed to load shader!". *)
Theorem BuildShader_spec (fs : FS) (filename : string) (res : VkResult) :
  match BuildShader fs filename res with
  | inr info =>
      exists c, fs (filename ++ ".spv") = Some c /\ List.length c mod 4 = 0%nat /\ c <> [] /\
        is_success res = true /\ codeSize info = List.length c /\ words_bytes (pCode info) = c
  | inl msg =>
      (fs (filename ++ ".spv") = None /\ msg = "failed to open file: " ++ (filename ++ ".spv")) \/
      exists c, fs (filename ++ ".spv") = Some c /\
        ((List.length c mod 4 <> 0%nat /\ msg = "spirv file is not divisable by 4: " ++ (filename ++ ".spv")) \/
         (c = [] /\ msg = "failed to load shader!") \/
         (List.length c mod 4 = 0%nat /\ c <> [] /\ is_success res = false /\
          msg = "failed to create shader module!"))
  end.
Proof.
  unfold BuildShader, LoadSPIRV.
  destruct (fs (filename ++ ".spv")) as [c|] eqn:Hfs; [|left; split; reflexivity].
  destruct (Nat.eqb_spec (List.length c mod 4) 0) as [Hm|Hm]; cbn [negb].
  - assert (Hc : List.length c = 4 * (List.length c / 4)).
    { pose proof (Nat.div_mod (List.length c) 4 ltac:(lia)). lia. }
    destruct (read_words_exact (List.length c / 4) c Hc) as [Hlen Hbytes].
    destruct (Nat.eqb_spec (List.length (read_words (List.length c / 4) c)) 0) as [H0|H0].
    + right. exists c. split; [reflexivity|]. right. left. split; [|reflexivity].
      destruct (read_words (List.length c / 4) c) as [|w ws]; [exact (eq_sym Hbytes)|discriminate H0].
    + assert (Hne : c <> []) by (intros ->; apply H0; reflexivity).
      destruct (is_success res) eqn:Hres; cbn [negb].
      * exists c. split; [reflexivity|]. split; [exact Hm|]. split; [exact Hne|].
        split; [reflexivity|]. cbn [codeSize pCode]. split; [rewrite Hlen; lia|exact Hbytes].
      * right. exists c. split; [reflexivity|]. right. right. auto.
  - right. exists c. split; [reflexivity|]. left. auto.
Qed.

End ShaderExtras.
